(** * KhushiiWithDiamond: admin category tab, gold price hook, access policies

    A shallow embedding of
    - [src/components/admin/AdminCategoriesTab.tsx] (category tree presenter,
      delete guard, create/edit form),
    - the [useGoldPrice] polling hook, and
    - the migration [20251030193458_fix_duplicate_policy_error.sql],
    together with the properties the specification states about them.

    Conventions.  A JavaScript string is a [string]: every [ascii] stands for
    one UTF-16 code unit below 256.  A nullable field ([T | null | undefined])
    is an [option].  React state is an explicit record; an [async] handler is
    a function from the state and the answers of the outside world (backend
    result, [confirm] dialog) to the new state and the trace of effects it
    emitted. *)

From Stdlib Require Import Ascii.
From stdpp Require Import base option list relations strings pretty gmap.

Local Open Scope string_scope.
Local Open Scope list_scope.
Local Open Scope nat_scope.

Set Warnings "-register-all".

(** ** Data model *)

Module Category.
(** Modelled from the spec: the [Category] interface is declared in
    [lib/supabase], which is not among the files modelled here; the record
    shape is the one of the specification,
    [{ id, name, description?, image_url?, parent_id? }]. *)
Record t : Type := mk {
  id : string;
  name : string;
  description : option string;
  image_url : option string;
  parent_id : option string;
}.

#[global] Instance eq_dec : EqDecision t.
Proof. solve_decision. Defined.
End Category.

Module JewelryItem.
(** Modelled from the spec: the [JewelryItem] interface is declared in
    [lib/supabase] as well; the component only reads its [category] field,
    a string matched against [Category.name]. *)
Record t : Type := mk {
  id : string;
  category : string;
}.

#[global] Instance eq_dec : EqDecision t.
Proof. solve_decision. Defined.
End JewelryItem.

Abbreviation Category := Category.t.
Abbreviation JewelryItem := JewelryItem.t.

(** ** JavaScript truthiness of a nullable string

    [!s] is [true] for [null], [undefined] and the empty string. *)

Definition truthy (s : option string) : bool :=
  match s with
  | None => false
  | Some s => negb (String.eqb s "")
  end.

(** [s || d] on a nullable string with a string default. *)
Definition or_else (s : option string) (d : string) : string :=
  if truthy s then default d s else d.

(** ** Strings: [split(',')] and [trim()] *)

Module JsString.

(** [String.prototype.split] with a one-character separator: the pieces
    between the separators, in order; the empty string gives one empty
    piece. *)
Definition push_front (c : ascii) (l : list string) : list string :=
  match l with
  | h :: t => String c h :: t
  | [] => [String c ""]
  end.

Fixpoint split (sep : ascii) (s : string) : list string :=
  match s with
  | "" => [""]
  | String c r =>
      if Ascii.eqb c sep then "" :: split sep r
      else push_front c (split sep r)
  end.

(** [Array.prototype.join] with a one-character separator. *)
Fixpoint join (sep : ascii) (l : list string) : string :=
  match l with
  | [] => ""
  | [s] => s
  | s :: l => s +:+ String sep (join sep l)
  end.

(** White space and line terminators of ECMAScript among the code units
    below 256: TAB, LF, VT, FF, CR, SPACE and NBSP. *)
Definition isWhiteSpace (c : ascii) : bool :=
  let n := nat_of_ascii c in
  ((9 <=? n)%nat && (n <=? 13)%nat) || (n =? 32)%nat || (n =? 160)%nat.

Fixpoint trimStart (s : string) : string :=
  match s with
  | "" => ""
  | String c r => if isWhiteSpace c then trimStart r else s
  end.

Fixpoint trimEnd (s : string) : string :=
  match s with
  | "" => ""
  | String c r =>
      match trimEnd r with
      | "" => if isWhiteSpace c then "" else String c ""
      | r' => String c r'
      end
  end.

Definition trim (s : string) : string := trimEnd (trimStart s).

(** A string made of white space only. *)
Fixpoint blank (s : string) : bool :=
  match s with
  | "" => true
  | String c r => isWhiteSpace c && blank r
  end.

Fixpoint mem (c : ascii) (s : string) : bool :=
  match s with
  | "" => false
  | String d r => Ascii.eqb d c || mem c r
  end.

Definition first (s : string) : option ascii :=
  match s with "" => None | String c _ => Some c end.

Fixpoint last (s : string) : option ascii :=
  match s with
  | "" => None
  | String c "" => Some c
  | String _ r => last r
  end.

End JsString.

(** ** Category tree presenter *)

(** One rendered [CategoryCard]: the category shown, the values derived for
    it, and the cards nested under it. *)
Inductive Card : Type := mkCard {
  card_category : Category;
  card_isSubcategory : bool;
  card_src : string;
  card_itemCount : nat;
  card_imageCount : nat;
  card_subcategoryCount : nat;
  card_isExpanded : bool;
  card_children : list Card;
}.

(** The conditional parts of the card. *)
Definition card_hasSubcategories (k : Card) : bool :=
  bool_decide (0 < card_subcategoryCount k).
Definition card_showImageBadge (k : Card) : bool :=
  bool_decide (1 < card_imageCount k).
Definition card_showSubcategoryBadge (k : Card) : bool :=
  card_isSubcategory k.

(** The categories of a card and of everything nested under it, in the order
    the cards are rendered. *)
Fixpoint rendered (k : Card) : list Category :=
  card_category k :: (card_children k ≫= rendered).

Definition rendered_all (ks : list Card) : list Category :=
  ks ≫= rendered.

(** Every card of the tree below (and including) a card. *)
Fixpoint subcards (k : Card) : list Card :=
  k :: (card_children k ≫= subcards).

(** Number of tiers of a card: 1 for a card without nested cards. *)
Fixpoint tiers (k : Card) : nat :=
  S (max_list (tiers <$> card_children k)).

Definition fallbackImage : string :=
  "https://images.pexels.com/photos/265856/pexels-photo-265856.jpeg".

Section Presenter.
Context (items : list JewelryItem).
Context (categories : list Category).
Context (expandedCategories : gset string).

Definition topLevelCategories : list Category :=
  filter (λ cat, truthy (Category.parent_id cat) = false) categories.

Definition getSubcategories (parentId : string) : list Category :=
  filter (λ cat, Category.parent_id cat = Some parentId) categories.

Definition getItemCount (categoryName : string) : nat :=
  length (filter (λ item, JewelryItem.category item = categoryName) items).

Definition getImageCount (category : Category) : nat :=
  if truthy (Category.image_url category) then
    length (filter (λ url, url ≠ "")
              (JsString.trim <$>
                 JsString.split "," (default "" (Category.image_url category))))
  else 0.

(** [category.image_url?.split(',')[0]?.trim() || fallback] *)
Definition coverImage (category : Category) : string :=
  or_else
    (JsString.trim <$>
       (Category.image_url category ≫= λ url, head (JsString.split "," url)))
    fallbackImage.

(** The subcategories a card unfolds. *)
Definition shown (c : Category) : list Category :=
  if bool_decide (Category.id c ∈ expandedCategories)
  then getSubcategories (Category.id c) else [].

(** The component is recursive; [fuel] bounds the nesting it may unfold,
    and [None] means the bound was hit. *)
Fixpoint CategoryCard (fuel : nat) (category : Category) (isSubcategory : bool)
    : option Card :=
  match fuel with
  | 0 => None
  | S fuel =>
      let itemCount := getItemCount (Category.name category) in
      let imageCount := getImageCount category in
      let subcategories := getSubcategories (Category.id category) in
      let hasSubcategories := bool_decide (0 < length subcategories) in
      let isExpanded := bool_decide (Category.id category ∈ expandedCategories) in
      children ←
        (if hasSubcategories && isExpanded
         then mapM (λ subcategory, CategoryCard fuel subcategory true) subcategories
         else Some []);
      Some (mkCard category isSubcategory (coverImage category)
              itemCount imageCount (length subcategories) isExpanded children)
  end.

(** The list of cards of the tab, and the "No categories found" panel. *)
Record View : Type := mkView {
  view_cards : list Card;
  view_empty : bool;
}.

Definition render (fuel : nat) : option View :=
  cards ← mapM (λ category, CategoryCard fuel category false) topLevelCategories;
  Some (mkView cards (bool_decide (length topLevelCategories = 0))).

End Presenter.

(** ** The hierarchy the parent links describe *)

Section Hierarchy.
Context (categories : list Category).

(** [parent_link s p]: the listed category [s] names the listed category
    [p] as its parent. *)
Definition parent_link (s p : Category) : Prop :=
  s ∈ categories ∧ p ∈ categories ∧
  Category.parent_id s = Some (Category.id p).

(** A category on a cycle of parent links (a category that is its own
    parent is one), and a category whose chain of parents runs into one. *)
Definition on_cycle (c : Category) : Prop := tc parent_link c c.
Definition leads_to_cycle (c : Category) : Prop :=
  ∃ d, rtc parent_link c d ∧ on_cycle d.

(** [trail (c :: t)]: [t] lists the parent of [c], its parent, and so on,
    and ends with a top-level category. *)
Inductive trail : list Category → Prop :=
  | trail_top r :
      r ∈ categories →
      truthy (Category.parent_id r) = false →
      trail [r]
  | trail_sub s p t :
      trail (p :: t) →
      s ∈ categories →
      Category.parent_id s = Some (Category.id p) →
      trail (s :: p :: t).

(** No top-level category names a listed category as its parent: none has
    the empty string for [parent_id] while another has it for [id]. *)
Definition top_unparented : Prop :=
  ∀ r p, r ∈ categories → p ∈ categories →
    truthy (Category.parent_id r) = false →
    Category.parent_id r ≠ Some (Category.id p).

(** No category that is listed under another has categories listed under
    itself. *)
Definition two_tiered : Prop :=
  ∀ p s g, p ∈ categories → s ∈ categories → g ∈ categories →
    Category.parent_id s = Some (Category.id p) →
    Category.parent_id g ≠ Some (Category.id s).

End Hierarchy.

(** ** Component state and effects *)

Module FormData.
(** [categoryFormData]: the four text fields of the form. *)
Record t : Type := mk {
  name : string;
  description : string;
  image_url : string;
  parent_id : string;
}.
Definition empty : t := mk "" "" "" "".
End FormData.

Module SubmitData.
(** The row sent to the backend: the form fields with a nullable
    [parent_id]. *)
Record t : Type := mk {
  name : string;
  description : string;
  image_url : string;
  parent_id : option string;
}.
End SubmitData.

Record State : Type := mkState {
  categories : list Category;
  showAddCategoryForm : bool;
  editingCategory : option Category;
  expandedCategories : gset string;
  categoryFormData : FormData.t;
}.

Definition initialState : State :=
  mkState [] false None ∅ FormData.empty.

(** What a handler does to the outside world, in order. *)
Inductive Effect : Type :=
  | RemoteSelect                                  (* from('categories').select('*').order('name') *)
  | RemoteUpdate (row : SubmitData.t) (id : string) (* from('categories').update(row).eq('id', id) *)
  | RemoteInsert (rows : list SubmitData.t)       (* from('categories').insert(rows) *)
  | RemoteDelete (id : string)                    (* from('categories').delete().eq('id', id) *)
  | OnCategoriesChange
  | Alert (msg : string)
  | Confirm (msg : string)
  | ConsoleError (msg : string).

Definition is_remote_write (e : Effect) : bool :=
  match e with
  | RemoteUpdate _ _ | RemoteInsert _ | RemoteDelete _ => true
  | _ => false
  end.

Definition is_remote (e : Effect) : bool :=
  match e with
  | RemoteSelect => true
  | _ => is_remote_write e
  end.

(** What the backend answers to a write: [{ error: null }], [{ error }], or a
    rejected promise. *)
Inductive WriteReply : Type :=
  | WriteOk
  | WriteError
  | WriteRejected.

(** What the backend answers to the select: [{ data }] with [data] possibly
    null, or a rejected promise. *)
Inductive SelectReply : Type :=
  | SelectData (data : option (list Category))
  | SelectRejected.

(** A handler run: the value or the exception it ends with, the state it
    leaves and the effects it emitted. *)
Inductive Outcome (A : Type) : Type :=
  | Done (a : A)
  | Thrown.
Arguments Done {A} a.
Arguments Thrown {A}.

Definition M (A : Type) : Type := State → Outcome A * State * list Effect.

Definition ret {A} (a : A) : M A := λ st, (Done a, st, []).

Definition bind {A B} (m : M A) (k : A → M B) : M B := λ st,
  match m st with
  | (Done a, st1, tr1) =>
      match k a st1 with
      | (r, st2, tr2) => (r, st2, tr1 ++ tr2)
      end
  | (Thrown, st1, tr1) => (Thrown, st1, tr1)
  end.

Definition throw {A} : M A := λ st, (Thrown, st, []).

Definition try_catch {A} (body handler : M A) : M A := λ st,
  match body st with
  | (Done a, st1, tr1) => (Done a, st1, tr1)
  | (Thrown, st1, tr1) =>
      match handler st1 with
      | (r, st2, tr2) => (r, st2, tr1 ++ tr2)
      end
  end.

Definition emit (e : Effect) : M unit := λ st, (Done (), st, [e]).
Definition get : M State := λ st, (Done st, st, []).
Definition modify (f : State → State) : M unit := λ st, (Done (), f st, []).

Declare Scope handler_scope.
Delimit Scope handler_scope with handler.
Notation "x <- m ;; k" := (bind m (λ x, k))
  (at level 100, m at next level, right associativity) : handler_scope.
Notation "m ;; k" := (bind m (λ _, k))
  (at level 100, right associativity) : handler_scope.

Definition setCategories (data : list Category) : M unit :=
  modify (λ st, mkState data (showAddCategoryForm st) (editingCategory st)
                  (expandedCategories st) (categoryFormData st)).
Definition setShowAddCategoryForm (b : bool) : M unit :=
  modify (λ st, mkState (categories st) b (editingCategory st)
                  (expandedCategories st) (categoryFormData st)).
Definition setEditingCategory (c : option Category) : M unit :=
  modify (λ st, mkState (categories st) (showAddCategoryForm st) c
                  (expandedCategories st) (categoryFormData st)).
Definition setExpandedCategories (s : gset string) : M unit :=
  modify (λ st, mkState (categories st) (showAddCategoryForm st)
                  (editingCategory st) s (categoryFormData st)).
Definition setCategoryFormData (d : FormData.t) : M unit :=
  modify (λ st, mkState (categories st) (showAddCategoryForm st)
                  (editingCategory st) (expandedCategories st) d).

(** [const { error } = await <write>; if (error) throw error;] *)
Definition await_write (reply : WriteReply) : M unit :=
  match reply with
  | WriteOk => ret ()
  | WriteError | WriteRejected => throw
  end.

Definition dquote : string := String "034" "".

Section Handlers.
Local Open Scope handler_scope.
Context (items : list JewelryItem).

Definition loadCategories (reply : SelectReply) : M unit :=
  try_catch
    (emit RemoteSelect;;
     match reply with
     | SelectRejected => throw
     | SelectData None => ret ()
     | SelectData (Some data) => setCategories data;; emit OnCategoriesChange
     end)
    (emit (ConsoleError "Error loading categories:")).

Definition resetCategoryForm : M unit :=
  setCategoryFormData FormData.empty;;
  setShowAddCategoryForm false;;
  setEditingCategory None.

Definition startEditCategory (category : Category) : M unit :=
  setEditingCategory (Some category);;
  setCategoryFormData
    (FormData.mk (Category.name category)
       (or_else (Category.description category) "")
       (or_else (Category.image_url category) "")
       (or_else (Category.parent_id category) ""));;
  setShowAddCategoryForm true.

(** [{ ...categoryFormData, parent_id: categoryFormData.parent_id || null }] *)
Definition submitData (d : FormData.t) : SubmitData.t :=
  SubmitData.mk (FormData.name d) (FormData.description d) (FormData.image_url d)
    (if truthy (Some (FormData.parent_id d)) then Some (FormData.parent_id d)
     else None).

Definition saveErrorAlert : string :=
  "Error saving category. Please check your permissions and try again.".

Definition handleCategorySubmit (write : WriteReply) (load : SelectReply) : M unit :=
  st <- get;;
  let submitData := submitData (categoryFormData st) in
  try_catch
    (match editingCategory st with
     | Some editing =>
         emit (RemoteUpdate submitData (Category.id editing));;
         await_write write
     | None =>
         emit (RemoteInsert [submitData]);;
         await_write write
     end;;
     loadCategories load;;
     resetCategoryForm)
    (emit (ConsoleError "Error saving category:");;
     emit (Alert saveErrorAlert)).

Definition itemsAlert (categoryName : string) (itemCount : nat) : string :=
  "Cannot delete category " +:+ dquote +:+ categoryName +:+ dquote +:+
  " because it contains " +:+ pretty itemCount +:+
  " items. Please move or delete the items first.".

Definition subcategoriesAlert (categoryName : string) (n : nat) : string :=
  "Cannot delete category " +:+ dquote +:+ categoryName +:+ dquote +:+
  " because it has " +:+ pretty n +:+
  " subcategories. Please delete the subcategories first.".

Definition confirmQuestion (categoryName : string) : string :=
  "Are you sure you want to delete the category " +:+ dquote +:+
  categoryName +:+ dquote +:+ "?".

Definition deleteErrorAlert : string :=
  "Error deleting category. Please check your permissions and try again.".

Definition handleDeleteCategory (confirmed : bool) (write : WriteReply)
    (load : SelectReply) (id categoryName : string) : M unit :=
  st <- get;;
  let itemCount :=
    length (filter (λ item, JewelryItem.category item = categoryName) items) in
  let subcategories :=
    filter (λ cat, Category.parent_id cat = Some id) (categories st) in
  if bool_decide (0 < itemCount) then
    emit (Alert (itemsAlert categoryName itemCount))
  else if bool_decide (0 < length subcategories) then
    emit (Alert (subcategoriesAlert categoryName (length subcategories)))
  else
    emit (Confirm (confirmQuestion categoryName));;
    if confirmed then
      try_catch
        (emit (RemoteDelete id);;
         await_write write;;
         loadCategories load)
        (emit (ConsoleError "Error deleting category:");;
         emit (Alert deleteErrorAlert))
    else ret ().

Definition toggleExpanded (categoryId : string) : M unit :=
  st <- get;;
  let newExpanded := expandedCategories st in
  setExpandedCategories
    (if bool_decide (categoryId ∈ newExpanded)
     then newExpanded ∖ {[categoryId]}
     else newExpanded ∪ {[categoryId]}).

(** The view of the tab in a state. *)
Definition AdminCategoriesTab (fuel : nat) (st : State) : option View :=
  render items (categories st) (expandedCategories st) fuel.

End Handlers.

(** ** Gold price poller *)

Module GoldPrice.

(** The three pieces of React state of [useGoldPrice], the [mounted]
    variable and the interval of its effect, and the number of calls of
    [getCurrentGoldPrice] that have not settled yet.  The price is a
    JavaScript number the hook stores without computing on it; it is an
    integer here. *)
Record Hook : Type := mkHook {
  goldPrice : Z;
  loading : bool;
  error : option string;
  mounted : bool;
  interval : bool;
  pending : nat;
}.

(** [useState(5450)], [useState(true)], [useState(null)]; the effect has
    not run yet. *)
Definition init : Hook := mkHook 5450 true None false false 0.

Definition fetchError : string := "Failed to fetch gold price".

Inductive Event : Type :=
  | Mount                   (* the effect runs *)
  | Tick                    (* the interval fires *)
  | Resolved (price : Z)    (* a pending getCurrentGoldPrice() resolves *)
  | Rejected                (* a pending getCurrentGoldPrice() rejects *)
  | Unmount.                (* the cleanup of the effect runs *)

(** [fetchGoldPrice] up to its [await]. *)
Definition fetch_start (h : Hook) : Hook :=
  mkHook (goldPrice h) true None (mounted h) (interval h) (S (pending h)).

(** [fetchGoldPrice] after its [await] resolved with [price]. *)
Definition fetch_resolved (price : Z) (h : Hook) : Hook :=
  let h1 :=
    if mounted h
    then mkHook price (loading h) (error h) (mounted h) (interval h) (pending h)
    else h in
  mkHook (goldPrice h1) (if mounted h1 then false else loading h1) (error h1)
    (mounted h1) (interval h1) (pred (pending h1)).

(** [fetchGoldPrice] after its [await] rejected. *)
Definition fetch_rejected (h : Hook) : Hook :=
  let h1 :=
    if mounted h
    then mkHook (goldPrice h) (loading h) (Some fetchError) (mounted h)
           (interval h) (pending h)
    else h in
  mkHook (goldPrice h1) (if mounted h1 then false else loading h1) (error h1)
    (mounted h1) (interval h1) (pred (pending h1)).

(** One event; [None] when the event cannot happen in the state. *)
Definition step (e : Event) (h : Hook) : option Hook :=
  match e with
  | Mount =>
      if mounted h || interval h || bool_decide (0 < pending h) then None
      else
        let h1 := mkHook (goldPrice h) (loading h) (error h) true (interval h)
                    (pending h) in
        let h2 := fetch_start h1 in
        Some (mkHook (goldPrice h2) (loading h2) (error h2) (mounted h2) true
                (pending h2))
  | Tick => if interval h then Some (fetch_start h) else None
  | Resolved price =>
      if bool_decide (0 < pending h) then Some (fetch_resolved price h) else None
  | Rejected =>
      if bool_decide (0 < pending h) then Some (fetch_rejected h) else None
  | Unmount =>
      if mounted h
      then Some (mkHook (goldPrice h) (loading h) (error h) false false (pending h))
      else None
  end.

Fixpoint run (events : list Event) (h : Hook) : option Hook :=
  match events with
  | [] => Some h
  | e :: events => h' ← step e h; run events h'
  end.


End GoldPrice.

(** ** Row level security policies *)

Module Sql.

Inductive Table : Type := categories | jewelry_items | admin_settings.
Inductive Command : Type := SELECT | INSERT | UPDATE | DELETE.
Inductive Role : Type := public | authenticated.
Inductive Expr : Type := TRUE.

#[global] Instance Table_eq_dec : EqDecision Table.
Proof. solve_decision. Defined.
#[global] Instance Command_eq_dec : EqDecision Command.
Proof. solve_decision. Defined.
#[global] Instance Role_eq_dec : EqDecision Role.
Proof. solve_decision. Defined.

Record Policy : Type := mkPolicy {
  name : string;
  table : Table;
  command : Command;
  role : Role;
  using_expr : option Expr;
  with_check_expr : option Expr;
}.

Inductive Stmt : Type :=
  | DropPolicyIfExists (name : string) (table : Table)
  | EnableRowLevelSecurity (table : Table)
  | CreatePolicy (p : Policy).

Record Db : Type := mkDb {
  policies : list Policy;
  rls : list Table;
}.

Definition named (n : string) (t : Table) (p : Policy) : Prop :=
  name p = n ∧ table p = t.

#[global] Instance named_dec n t p : Decision (named n t p).
Proof. unfold named. apply _. Defined.

(** One statement; [None] is an error that aborts the migration (a policy
    of that name already exists on the table). *)
Definition exec (s : Stmt) (db : Db) : option Db :=
  match s with
  | DropPolicyIfExists n t =>
      Some (mkDb (filter (λ p, ¬ named n t p) (policies db)) (rls db))
  | EnableRowLevelSecurity t =>
      Some (mkDb (policies db)
              (if bool_decide (t ∈ rls db) then rls db else t :: rls db))
  | CreatePolicy p =>
      if bool_decide (Exists (named (name p) (table p)) (policies db))
      then None
      else Some (mkDb (policies db ++ [p]) (rls db))
  end.

Fixpoint run (script : list Stmt) (db : Db) : option Db :=
  match script with
  | [] => Some db
  | s :: script => db' ← exec s db; run script db'
  end.

Definition dropped : list (string * Table) := [
  ("Categories are publicly readable", categories);
  ("Jewelry items are publicly readable", jewelry_items);
  ("Only authenticated users can insert categories", categories);
  ("Only authenticated users can update categories", categories);
  ("Only authenticated users can delete categories", categories);
  ("Only authenticated users can insert jewelry items", jewelry_items);
  ("Only authenticated users can update jewelry items", jewelry_items);
  ("Only authenticated users can delete jewelry items", jewelry_items);
  ("Authenticated users can read admin settings", admin_settings);
  ("Authenticated users can update admin settings", admin_settings);
  ("Authenticated users can insert admin settings", admin_settings)
].

Definition created : list Policy := [
  mkPolicy "Categories are publicly readable"
    categories SELECT public (Some TRUE) None;
  mkPolicy "Only authenticated users can insert categories"
    categories INSERT authenticated None (Some TRUE);
  mkPolicy "Only authenticated users can update categories"
    categories UPDATE authenticated (Some TRUE) (Some TRUE);
  mkPolicy "Only authenticated users can delete categories"
    categories DELETE authenticated (Some TRUE) None;
  mkPolicy "Jewelry items are publicly readable"
    jewelry_items SELECT public (Some TRUE) None;
  mkPolicy "Only authenticated users can insert jewelry items"
    jewelry_items INSERT authenticated None (Some TRUE);
  mkPolicy "Only authenticated users can update jewelry items"
    jewelry_items UPDATE authenticated (Some TRUE) (Some TRUE);
  mkPolicy "Only authenticated users can delete jewelry items"
    jewelry_items DELETE authenticated (Some TRUE) None;
  mkPolicy "Authenticated users can read admin settings"
    admin_settings SELECT authenticated (Some TRUE) None;
  mkPolicy "Authenticated users can update admin settings"
    admin_settings UPDATE authenticated (Some TRUE) (Some TRUE);
  mkPolicy "Authenticated users can insert admin settings"
    admin_settings INSERT authenticated None (Some TRUE)
].

(** The migration, statement by statement. *)
Definition migration : list Stmt :=
  map (λ nt, DropPolicyIfExists nt.1 nt.2) dropped ++
  [EnableRowLevelSecurity categories;
   EnableRowLevelSecurity jewelry_items;
   EnableRowLevelSecurity admin_settings] ++
  map CreatePolicy created.

(** The roles a database grants a command on a table to, one per policy. *)
Definition grantees (db : Db) (t : Table) (c : Command) : list Role :=
  role <$> filter (λ p, table p = t ∧ command p = c) (policies db).

(** The role matrix as the specification tabulates it: public read and
    authenticated write on [categories] and [jewelry_items]; authenticated
    read, insert and update, and nothing else, on [admin_settings]. *)
Definition role_matrix (t : Table) (c : Command) : list Role :=
  match t, c with
  | (categories | jewelry_items), SELECT => [public]
  | (categories | jewelry_items), (INSERT | UPDATE | DELETE) => [authenticated]
  | admin_settings, (SELECT | INSERT | UPDATE) => [authenticated]
  | admin_settings, DELETE => []
  end.

End Sql.

(** ** The item count in the words of the specification *)

(** The number of items whose [category] is exactly the given name: the
    strings are compared code unit by code unit, nothing is trimmed and no
    case is folded. *)
Fixpoint spec_item_count (name : string) (items : list JewelryItem) : nat :=
  match items with
  | [] => 0
  | item :: items =>
      (if String.eqb (JewelryItem.category item) name then 1 else 0) +
      spec_item_count name items
  end.

(** ** Sample data *)

Module Sample.
Definition rings : Category :=
  Category.mk "c1" "Rings" (Some "All rings") (Some "a.jpg, b.jpg,  c.jpg") None.
Definition heavy : Category :=
  Category.mk "c2" "Heavy Rings" None None (Some "c1").
Definition antique : Category :=
  Category.mk "c3" "Antique Heavy Rings" None None (Some "c2").
Definition chains : Category :=
  Category.mk "c4" "Chains" None (Some " ,b.jpg") (Some "").

(** A category with the empty string for both [id] and [parent_id]: it is
    its own parent. *)
Definition loop : Category := Category.mk "" "Loop" None None (Some "").

Definition items : list JewelryItem := [
  JewelryItem.mk "i1" "Rings";
  JewelryItem.mk "i2" "rings";
  JewelryItem.mk "i3" "Rings ";
  JewelryItem.mk "i4" "Rings";
  JewelryItem.mk "i5" "Chains"
].
End Sample.

(** ** The form modal and the events of the tab *)

(** The four controls of the form: the parent select, the name input, the
    description and the image textareas. *)
Inductive Field : Type := FParentId | FName | FDescription | FImageUrl.

(** [{ ...categoryFormData, [field]: value }] *)
Definition setField (f : Field) (value : string) (d : FormData.t) : FormData.t :=
  match f with
  | FParentId =>
      FormData.mk (FormData.name d) (FormData.description d)
        (FormData.image_url d) value
  | FName =>
      FormData.mk value (FormData.description d) (FormData.image_url d)
        (FormData.parent_id d)
  | FDescription =>
      FormData.mk (FormData.name d) value (FormData.image_url d)
        (FormData.parent_id d)
  | FImageUrl =>
      FormData.mk (FormData.name d) (FormData.description d) value
        (FormData.parent_id d)
  end.

(** The [onChange] of a control. *)
Definition handleChange (f : Field) (value : string) : M unit :=
  bind get (λ st, setCategoryFormData (setField f value (categoryFormData st))).

(** What the modal shows: its title, the options of the parent select (value
    and label), the values of the controls and the label of the submit
    button. *)
Record FormView : Type := mkFormView {
  form_title : string;
  form_options : list (string * string);
  form_values : FormData.t;
  form_submit : string;
}.

(** [{showAddCategoryForm && ( ... )}] *)
Definition formModal (st : State) : option FormView :=
  if showAddCategoryForm st then
    Some (mkFormView
            (match editingCategory st with
             | Some _ => "Edit Category"
             | None => "Add New Category"
             end)
            (("", "None (Top-level category)") ::
               map (λ cat, (Category.id cat, Category.name cat))
                 (topLevelCategories (categories st)))
            (categoryFormData st)
            (match editingCategory st with
             | Some _ => "Update"
             | None => "Add"
             end +:+ " Category"))
  else None.

(** The events the tab reacts to, with the answers of the outside world the
    handler will get. *)
Inductive Action : Type :=
  | EffectMount (load : SelectReply)          (* useEffect: loadCategories() *)
  | ClickAdd                                  (* "Add Category" *)
  | ClickEdit (category : Category)           (* the pencil of a card *)
  | ClickDelete (category : Category) (confirmed : bool)
      (write : WriteReply) (load : SelectReply) (* the bin of a card *)
  | ClickToggle (category : Category)         (* the folder button of a card *)
  | ClickClose                                (* the X and Cancel buttons *)
  | Change (f : Field) (value : string)       (* typing or selecting in the form *)
  | Submit (write : WriteReply) (load : SelectReply).

Section Events.
Context (items : list JewelryItem).

Definition handler (a : Action) : M unit :=
  match a with
  | EffectMount load => loadCategories load
  | ClickAdd => setShowAddCategoryForm true
  | ClickEdit category => startEditCategory category
  | ClickDelete category confirmed write load =>
      handleDeleteCategory items confirmed write load
        (Category.id category) (Category.name category)
  | ClickToggle category => toggleExpanded (Category.id category)
  | ClickClose => resetCategoryForm
  | Change f value => handleChange f value
  | Submit write load => handleCategorySubmit write load
  end.

(** Whether the control of an event exists in a state: the controls of the
    form exist while the modal is shown, and the form is submitted only with
    its required name filled in; the buttons of a card exist for listed
    categories, the folder button on cards with subcategories only. *)
Definition available (a : Action) (st : State) : bool :=
  match a with
  | EffectMount _ | ClickAdd => true
  | ClickEdit category | ClickDelete category _ _ _ =>
      bool_decide (category ∈ categories st)
  | ClickToggle category =>
      bool_decide (category ∈ categories st) &&
      bool_decide (0 < length (getSubcategories (categories st) (Category.id category)))
  | ClickClose | Change _ _ => showAddCategoryForm st
  | Submit _ _ =>
      showAddCategoryForm st && negb (String.eqb (FormData.name (categoryFormData st)) "")
  end.

Definition ui_step (a : Action) (st : State) : option State :=
  if available a st then Some (handler a st).1.2 else None.

Fixpoint ui_run (actions : list Action) (st : State) : option State :=
  match actions with
  | [] => Some st
  | a :: actions => st' ← ui_step a st; ui_run actions st'
  end.

End Events.

(** * Properties *)

(** ** Truthiness *)

Lemma truthy_false (s : option string) :
  truthy s = false ↔ s = None ∨ s = Some "".
Proof.
  destruct s as [s|]; simpl.
  - rewrite negb_false_iff, String.eqb_eq. split.
    + intros ->. by right.
    + intros [?|?]; congruence.
  - split; [by left|done].
Qed.

Lemma truthy_true (s : option string) :
  truthy s = true ↔ ∃ v, s = Some v ∧ v ≠ "".
Proof.
  destruct s as [s|]; simpl.
  - rewrite negb_true_iff, String.eqb_neq. split.
    + intros ?. by exists s.
    + intros (v & [= ->] & ?). done.
  - split; [done|]. intros (v & ? & _). done.
Qed.

(** ** Strings *)

Example split_abc :
  JsString.split "," "a.jpg, b.jpg,  c.jpg" = ["a.jpg"; " b.jpg"; "  c.jpg"].
Proof. reflexivity. Qed.

Example split_empty : JsString.split "," "" = [""].
Proof. reflexivity. Qed.

Example split_commas : JsString.split "," ",a,," = [""; "a"; ""; ""].
Proof. reflexivity. Qed.

Example trim_ex : JsString.trim "  c.jpg  " = "c.jpg".
Proof. reflexivity. Qed.

Section SplitFacts.
Import JsString.
Context (sep : ascii).

Lemma split_nonempty s : split sep s ≠ [].
Proof.
  destruct s as [|c r]; simpl; [done|].
  destruct (Ascii.eqb c sep); [done|]. by destruct (split sep r).
Qed.

Lemma join_cons seg l :
  l ≠ [] → join sep (seg :: l) = seg +:+ String sep (join sep l).
Proof. by destruct l. Qed.

(** Joining the pieces with the separator gives the string back. *)
Lemma join_split s : join sep (split sep s) = s.
Proof.
  induction s as [|c r IH]; simpl; [done|].
  destruct (Ascii.eqb_spec c sep) as [->|Hne].
  - rewrite join_cons by apply split_nonempty. simpl. by rewrite IH.
  - pose proof (split_nonempty r) as Hr.
    destruct (split sep r) as [|h t]; [done|]. simpl.
    destruct t as [|h' t]; simpl in *; by rewrite <-IH.
Qed.

(** No piece contains the separator. *)
Lemma split_sep_free s : Forall (λ seg, mem sep seg = false) (split sep s).
Proof.
  induction s as [|c r IH]; simpl; [by constructor|].
  destruct (Ascii.eqb_spec c sep) as [->|Hne]; [by constructor|].
  destruct IH as [|h t Hh Ht]; simpl; constructor; try done.
  - simpl. by rewrite (proj2 (Ascii.eqb_neq c sep)).
  - simpl. by rewrite (proj2 (Ascii.eqb_neq c sep)), Hh.
Qed.

Lemma split_free seg : mem sep seg = false → split sep seg = [seg].
Proof.
  induction seg as [|c r IH]; simpl; [done|].
  intros [Hc Hr]%orb_false_iff. rewrite Hc, IH; done.
Qed.

Lemma split_free_app seg rest :
  mem sep seg = false →
  split sep (seg +:+ String sep rest) = seg :: split sep rest.
Proof.
  induction seg as [|c r IH]; simpl.
  - intros _. by rewrite Ascii.eqb_refl.
  - intros [Hc Hr]%orb_false_iff. rewrite Hc, IH; done.
Qed.

(** The pieces are the only way to cut the string at the separators. *)
Lemma split_join l :
  l ≠ [] → Forall (λ seg, mem sep seg = false) l → split sep (join sep l) = l.
Proof.
  intros Hl Hfree. induction Hfree as [|seg l Hseg Hfree IH]; [done|].
  destruct l as [|seg' l]; [by apply split_free|].
  rewrite join_cons by done. rewrite split_free_app by done.
  f_equal. by apply IH.
Qed.

End SplitFacts.

Section TrimFacts.
Import JsString.

Lemma blank_app a b : blank (a +:+ b) = blank a && blank b.
Proof. induction a as [|c a IH]; simpl; [done|]. by rewrite IH, andb_assoc. Qed.

Lemma trimStart_spec s :
  ∃ a, s = a +:+ trimStart s ∧ blank a = true ∧
       ∀ c, first (trimStart s) = Some c → isWhiteSpace c = false.
Proof.
  induction s as [|c r (a & Ha & Hblank & Hfirst)]; simpl.
  - by exists "".
  - destruct (isWhiteSpace c) eqn:Hc.
    + exists (String c a). split_and!; [|by simpl; rewrite Hc|done].
      change (String c r = String c (a +:+ trimStart r)). by f_equal.
    + exists "". split_and!; [done..|]. simpl. congruence.
Qed.

Lemma trimEnd_spec s :
  ∃ b, s = trimEnd s +:+ b ∧ blank b = true ∧
       (∀ c, last (trimEnd s) = Some c → isWhiteSpace c = false) ∧
       first (trimEnd s) = (if blank s then None else first s).
Proof.
  induction s as [|c r (b & Hb & Hblank & Hlast & Hfirst)]; simpl.
  - by exists "".
  - destruct (trimEnd r) as [|c' r'] eqn:Hr.
    + change (r = b) in Hb. subst b. rewrite Hblank.
      destruct (isWhiteSpace c) eqn:Hc; simpl.
      * exists (String c r). split_and!; [done|by simpl; rewrite Hc|done..].
      * exists r. split_and!; [done..| |done]. congruence.
    + exists b. split_and!; [|done|done|].
      * change (String c r = String c (String c' r' +:+ b)). by f_equal.
      * simpl in *. destruct (blank r); [done|]. by rewrite andb_false_r.
Qed.

(** [trim] removes a blank prefix and a blank suffix, and what is left
    neither starts nor ends with white space. *)
Lemma trim_spec s :
  ∃ a b, s = a +:+ trim s +:+ b ∧ blank a = true ∧ blank b = true ∧
         (∀ c, first (trim s) = Some c → isWhiteSpace c = false) ∧
         (∀ c, last (trim s) = Some c → isWhiteSpace c = false).
Proof.
  unfold trim.
  destruct (trimStart_spec s) as (a & Ha & Hblanka & Hfirst).
  destruct (trimEnd_spec (trimStart s)) as (b & Hb & Hblankb & Hlast & Hfirst').
  exists a, b. split_and!; [by rewrite <-Hb|done..| |done].
  intros c. rewrite Hfirst'. destruct (blank (trimStart s)); [done|]. apply Hfirst.
Qed.

(** A string trims to the empty string exactly when it is blank. *)
Lemma trim_empty s : trim s = "" ↔ blank s = true.
Proof.
  destruct (trim_spec s) as (a & b & Hs & Ha & Hb & Hfirst & _). split.
  - intros Hempty. rewrite Hempty in Hs. rewrite Hs, !blank_app. simpl.
    by rewrite Ha, Hb.
  - intros Hblank. destruct (trim s) as [|c r] eqn:Ht; [done|].
    rewrite Hs, !blank_app in Hblank. simpl in Hblank.
    rewrite (Hfirst c eq_refl) in Hblank. simpl in Hblank.
    by rewrite andb_false_r in Hblank.
Qed.

End TrimFacts.

(** ** The category tree *)

Section Tree.
Context (items : list JewelryItem) (cats : list Category).
Context (expanded : gset string).

#[local] Abbreviation CategoryCard := (CategoryCard items cats expanded).
#[local] Abbreviation getSubcategories := (getSubcategories cats).
#[local] Abbreviation topLevelCategories := (topLevelCategories cats).
#[local] Abbreviation shown := (shown cats expanded).

Lemma CategoryCard_S fuel c b :
  CategoryCard (S fuel) c b =
    (children ← mapM (λ s, CategoryCard fuel s true) (shown c);
     Some (mkCard c b (coverImage c) (getItemCount items (Category.name c))
             (getImageCount c) (length (getSubcategories (Category.id c)))
             (bool_decide (Category.id c ∈ expanded)) children)).
Proof.
  unfold shown. simpl.
  destruct (bool_decide (Category.id c ∈ expanded)); simpl.
  - rewrite andb_true_r. case_bool_decide as Hlen; [done|].
    destruct (getSubcategories (Category.id c)); [done|simpl in Hlen; lia].
  - by rewrite andb_false_r.
Qed.

Lemma elem_of_getSubcategories s parentId :
  s ∈ getSubcategories parentId ↔
  s ∈ cats ∧ Category.parent_id s = Some parentId.
Proof. unfold getSubcategories. rewrite list_elem_of_filter. tauto. Qed.

Lemma elem_of_topLevelCategories r :
  r ∈ topLevelCategories ↔
  r ∈ cats ∧ truthy (Category.parent_id r) = false.
Proof. unfold topLevelCategories. rewrite list_elem_of_filter. tauto. Qed.

Lemma elem_of_shown s c :
  s ∈ shown c → s ∈ cats ∧ Category.parent_id s = Some (Category.id c).
Proof.
  unfold shown. case_bool_decide; [|by intros ?%elem_of_nil].
  by rewrite elem_of_getSubcategories.
Qed.

Lemma CategoryCard_inv fuel c b k :
  CategoryCard fuel c b = Some k →
  ∃ fuel', fuel = S fuel' ∧
    card_category k = c ∧ card_isSubcategory k = b ∧
    Forall2 (λ s kid, CategoryCard fuel' s true = Some kid)
      (shown c) (card_children k).
Proof.
  destruct fuel as [|fuel]; [done|]. rewrite CategoryCard_S.
  intros Hk. exists fuel. split; [done|].
  destruct (mapM _ (shown c)) as [kids|] eqn:Hkids; simplify_eq/=.
  by apply mapM_Some_1 in Hkids.
Qed.

(** The values a card displays are the derived values of its category. *)
Lemma CategoryCard_fields fuel c b k :
  CategoryCard fuel c b = Some k →
  card_src k = coverImage c ∧
  card_itemCount k = getItemCount items (Category.name c) ∧
  card_imageCount k = getImageCount c ∧
  card_subcategoryCount k = length (getSubcategories (Category.id c)) ∧
  card_isExpanded k = bool_decide (Category.id c ∈ expanded).
Proof.
  destruct fuel as [|fuel]; [done|]. rewrite CategoryCard_S. intros Hk.
  destruct (mapM _ (shown c)) as [kids|] eqn:Hkids; by simplify_eq/=.
Qed.

(** More fuel does not change a card. *)
Lemma CategoryCard_mono fuel fuel' c b k :
  CategoryCard fuel c b = Some k → fuel ≤ fuel' →
  CategoryCard fuel' c b = Some k.
Proof.
  revert fuel' c b k. induction fuel as [|fuel IH]; intros fuel' c b k; [done|].
  destruct fuel' as [|fuel']; [lia|]. rewrite !CategoryCard_S.
  intros Hk Hle.
  destruct (mapM _ (shown c)) as [kids|] eqn:Hkids; simplify_eq/=.
  apply mapM_Some_1 in Hkids.
  erewrite (mapM_Some_2 _ (shown c) kids); [done|].
  eapply Forall2_impl; [done|]. intros s kid ?. apply IH; [done|lia].
Qed.

End Tree.

(** ** Derived values of a card *)

Lemma length_filter_fmap {A B} (f : A → B) (P : B → Prop)
    `{!∀ y, Decision (P y)} `{!∀ x, Decision (P (f x))} (l : list A) :
  length (filter P (f <$> l)) = length (filter (λ x, P (f x)) l).
Proof.
  induction l as [|a l IH]; [done|]. csimpl. rewrite !filter_cons.
  repeat case_decide; simpl; try done. by rewrite IH.
Qed.

(** C6 (as amended).  The image count of a category is the number of
    comma-separated pieces of [image_url] that are not empty once trimmed,
    and 0 when [image_url] is absent; it is 0 for the empty string and 3 for
    the three-image sample.  The cover image is the trimmed first piece
    when that is not empty (it is the first image of the sample), and the
    fixed fallback picture when [image_url] is absent or its first piece is
    blank.  Every card displays that count and that picture. *)
Theorem C6_image_count_and_cover (c : Category) :
  getImageCount c =
    match Category.image_url c with
    | None => 0
    | Some url =>
        length (filter (λ seg, JsString.trim seg ≠ "") (JsString.split "," url))
    end ∧
  coverImage c =
    match Category.image_url c with
    | None => fallbackImage
    | Some url =>
        let seg := JsString.trim (default "" (head (JsString.split "," url))) in
        if decide (seg = "") then fallbackImage else seg
    end ∧
  (∀ id name description parent_id,
     getImageCount (Category.mk id name description (Some "") parent_id) = 0 ∧
     getImageCount
       (Category.mk id name description (Some "a.jpg, b.jpg,  c.jpg") parent_id) = 3 ∧
     coverImage
       (Category.mk id name description (Some "a.jpg, b.jpg,  c.jpg") parent_id)
       = "a.jpg") ∧
  (∀ items cats expanded fuel b k,
     CategoryCard items cats expanded fuel c b = Some k →
     card_imageCount k = getImageCount c ∧ card_src k = coverImage c).
Proof.
  split_and!.
  - unfold getImageCount. destruct (Category.image_url c) as [url|]; [|done].
    simpl. destruct (String.eqb_spec url "") as [->|Hne]; [done|]. simpl.
    apply (length_filter_fmap JsString.trim (λ u, u ≠ "")).
  - unfold coverImage, or_else. destruct (Category.image_url c) as [url|]; [|done].
    simpl. pose proof (split_nonempty "," url) as Hne.
    destruct (JsString.split "," url) as [|seg rest]; [done|]. simpl.
    destruct (String.eqb_spec (JsString.trim seg) "") as [->|Hseg]; simpl.
    + done.
    + by rewrite decide_False.
  - intros. split_and!; reflexivity.
  - intros items cats expanded fuel b k Hk.
    by apply CategoryCard_fields in Hk as (? & _ & ? & _).
Qed.

Lemma C6_image_count_and_cover_witness :
  ∃ k,
    CategoryCard Sample.items [Sample.rings] ∅ 1 Sample.rings false = Some k ∧
    card_imageCount k = 3 ∧ card_src k = "a.jpg".
Proof.
  eexists. split; [reflexivity|].
  apply (proj2 (proj2 (proj2 (C6_image_count_and_cover Sample.rings)))
           Sample.items [Sample.rings] ∅ 1 false).
  reflexivity.
Defined.

(** C6 fails as stated: for a category with an image whose [image_url]
    starts with a blank piece, the picture displayed is the fallback, not
    the (empty) trimmed first piece; the same holds for a category without
    [image_url]. *)
Lemma C6_counterexample :
  Category.image_url Sample.chains = Some " ,b.jpg" ∧
  getImageCount Sample.chains = 1 ∧
  JsString.trim <$> head (JsString.split "," " ,b.jpg") = Some "" ∧
  coverImage Sample.chains = fallbackImage ∧
  coverImage Sample.chains ≠ "" ∧
  coverImage Sample.heavy = fallbackImage.
Proof. split_and!; done. Qed.

Lemma getItemCount_spec (items : list JewelryItem) (name : string) :
  getItemCount items name = spec_item_count name items.
Proof.
  unfold getItemCount. induction items as [|item items IH]; [done|].
  rewrite filter_cons. simpl.
  destruct (String.eqb_spec (JewelryItem.category item) name) as [Heq|Hne].
  - rewrite decide_True by done. simpl. by rewrite IH.
  - rewrite decide_False by done. done.
Qed.

(** C7.  The item count of a category is the number of items whose
    [category] is, as a string, exactly its name: an item counts when the
    two strings are equal and does not count when they differ in any way
    (case, surrounding blanks); 2 of the 5 sample items are counted for
    the name of the [Rings] sample.  Every card displays that count. *)
Theorem C7_item_count (items : list JewelryItem) (c : Category) :
  getItemCount items (Category.name c) = spec_item_count (Category.name c) items ∧
  getItemCount items (Category.name c) =
    length (filter (λ item, JewelryItem.category item = Category.name c) items) ∧
  (∀ item,
     getItemCount (item :: items) (Category.name c) =
       (if decide (JewelryItem.category item = Category.name c) then 1 else 0) +
       getItemCount items (Category.name c)) ∧
  getItemCount Sample.items (Category.name Sample.rings) = 2 ∧
  (∀ cats expanded fuel b k,
     CategoryCard items cats expanded fuel c b = Some k →
     card_itemCount k = spec_item_count (Category.name c) items).
Proof.
  split_and!; [apply getItemCount_spec|done| |done|].
  - intros item. unfold getItemCount. rewrite filter_cons.
    by destruct (decide (JewelryItem.category item = Category.name c)).
  - intros cats expanded fuel b k Hk.
    apply CategoryCard_fields in Hk as (_ & -> & _). apply getItemCount_spec.
Qed.

Lemma C7_item_count_witness :
  ∃ k,
    CategoryCard Sample.items [Sample.rings] ∅ 1 Sample.rings false = Some k ∧
    card_itemCount k = 2.
Proof.
  eexists. split; [reflexivity|].
  apply (proj2 (proj2 (proj2 (proj2 (C7_item_count Sample.items Sample.rings))))
           [Sample.rings] ∅ 1 false).
  reflexivity.
Defined.

(** ** Lists: auxiliary facts *)

Lemma NoDup_fmap_eq {A B} (f : A → B) (l : list A) x y :
  NoDup (f <$> l) → x ∈ l → y ∈ l → f x = f y → x = y.
Proof.
  induction l as [|a l IH]; csimpl; [by intros _ ?%elem_of_nil|].
  rewrite NoDup_cons, !elem_of_cons. intros [Ha Hl] [->|Hx] [->|Hy] Hf; auto.
  - destruct Ha. rewrite Hf. by apply list_elem_of_fmap_2.
  - destruct Ha. rewrite <-Hf. by apply list_elem_of_fmap_2.
Qed.

Lemma Forall2_elem_of_r {A B} (R : A → B → Prop) l k b :
  Forall2 R l k → b ∈ k → ∃ a, a ∈ l ∧ R a b.
Proof.
  induction 1 as [|a b' l k HR _ IH]; [by intros ?%elem_of_nil|].
  rewrite elem_of_cons. intros [->|Hb].
  - exists a. split; [left|done].
  - destruct (IH Hb) as (a' & ? & ?). exists a'. split; [by right|done].
Qed.

(** Lists whose elements carry the tag of the list they come from are
    disjoint, so their concatenation repeats nothing. *)
Lemma NoDup_bind_tagged {A B C} (f : B → list C) (R : A → B → Prop)
    (tag : A → C → Prop) (l : list A) (k : list B) :
  Forall2 R l k →
  NoDup l →
  (∀ a b, a ∈ l → R a b → NoDup (f b) ∧ ∀ x, x ∈ f b → tag a x) →
  (∀ a a' x, a ∈ l → a' ∈ l → tag a x → tag a' x → a = a') →
  NoDup (k ≫= f).
Proof.
  induction 1 as [|a b l k HR Hlk IH]; intros Hnd Hf Htag; [by apply NoDup_nil|].
  apply NoDup_cons in Hnd as [Ha Hnd]. rewrite bind_cons. apply NoDup_app.
  destruct (Hf a b) as [Hfb Htagb]; [left|done|]. split_and!; [done| |].
  - intros x Hx (b' & Hxb' & Hb')%list_elem_of_bind.
    destruct (Forall2_elem_of_r _ _ _ _ Hlk Hb') as (a' & Ha' & HR').
    destruct (Hf a' b') as [_ Htagb']; [by right|done|].
    destruct Ha. rewrite (Htag a a' x); [done|left|by right|auto..].
  - apply IH; [done| |].
    + intros a' b' Ha'. apply Hf. by right.
    + intros a1 a2 x H1 H2. apply Htag; by right.
Qed.

Lemma suffix_same_length {A} (l1 l2 l : list A) :
  l1 `suffix_of` l → l2 `suffix_of` l → length l1 = length l2 → l1 = l2.
Proof.
  intros [k1 ->] [k2 Hk] Hlen. by apply app_inj_2 in Hk as [_ ?].
Qed.

(** ** Trails *)

Section Trails.
Context (cats : list Category).
Hypothesis Hids : NoDup (Category.id <$> cats).
Hypothesis Htop : top_unparented cats.

#[local] Abbreviation trail := (trail cats).
#[local] Abbreviation parent_link := (parent_link cats).

Lemma cats_id_inj x y :
  x ∈ cats → y ∈ cats → Category.id x = Category.id y → x = y.
Proof. by apply NoDup_fmap_eq. Qed.

Lemma cats_NoDup : NoDup cats.
Proof. by eapply NoDup_fmap_1. Qed.

Lemma trail_elem t x : trail t → x ∈ t → x ∈ cats.
Proof.
  induction 1 as [r Hr _|s p t _ IH Hs _].
  - by intros ->%list_elem_of_singleton.
  - rewrite elem_of_cons. intros [->|?]; auto.
Qed.

Lemma trail_tail x p t : trail (x :: p :: t) → trail (p :: t).
Proof. by inversion 1. Qed.

(** The parent of a category of a trail comes later in the trail. *)
Lemma trail_parent t x p :
  trail t → x ∈ t → p ∈ cats →
  Category.parent_id x = Some (Category.id p) →
  Category.id p ∈ Category.id <$> tail t.
Proof.
  induction 1 as [r Hr Hrtop|s q t Ht IH Hs Hpar]; intros Hx Hp Hpx.
  - apply list_elem_of_singleton in Hx as ->. by destruct (Htop r p).
  - csimpl. apply elem_of_cons. apply elem_of_cons in Hx as [->|Hx].
    + left. congruence.
    + right. by apply IH.
Qed.

Lemma trail_NoDup t : trail t → NoDup (Category.id <$> t).
Proof.
  induction 1 as [r Hr Hrtop|s p t Ht IH Hs Hpar]; [apply NoDup_singleton|].
  rewrite fmap_cons. apply NoDup_cons. split; [|done].
  intros (x & Hidx & Hx)%list_elem_of_fmap.
  assert (x = s) as ->.
  { apply cats_id_inj; [by eapply trail_elem|done..]. }
  assert (p ∈ cats) as Hp by (eapply trail_elem; [done|left]).
  pose proof (trail_parent _ _ _ Ht Hx Hp Hpar) as Hin. simpl in Hin.
  rewrite fmap_cons in IH. by apply NoDup_cons in IH as [? _].
Qed.

Lemma trail_length t : trail t → length t ≤ length cats.
Proof.
  intros Ht. rewrite <-(length_fmap Category.id t), <-(length_fmap Category.id cats).
  apply submseteq_length, NoDup_submseteq; [by apply trail_NoDup|].
  intros i (x & -> & Hx)%list_elem_of_fmap.
  by eapply list_elem_of_fmap_2, trail_elem.
Qed.

(** A category has at most one trail. *)
Lemma trail_unique t t' : trail t → trail t' → head t = head t' → t = t'.
Proof.
  intros Ht. revert t'.
  induction Ht as [r Hr Hrtop|s p t Ht IH Hs Hpar];
    intros t' Ht' Hhd; destruct Ht' as [r' Hr' Hrtop'|s' p' t' Ht' Hs' Hpar'];
    simplify_eq/=.
  - done.
  - destruct (Htop s' p'); [done| |done..].
    eapply (trail_elem (p' :: t')); [done|left].
  - destruct (Htop r' p); [done| |done..].
    eapply (trail_elem (p :: t)); [done|left].
  - assert (p = p') as <-.
    { apply cats_id_inj; [| |congruence].
      - eapply (trail_elem (p :: t)); [done|left].
      - eapply (trail_elem (p' :: t')); [done|left]. }
    f_equal. by apply IH.
Qed.

Lemma trail_parent_link x t p :
  trail (x :: t) → parent_link x p → ∃ t', t = p :: t'.
Proof.
  intros Ht (_ & Hp & Hpar). inversion Ht as [r Hr Hrtop|s q t' Ht' Hs Hq]; subst.
  - by destruct (Htop x p).
  - exists t'. f_equal. apply cats_id_inj; [eapply trail_elem; [done|left]|done|].
    congruence.
Qed.

Lemma trail_tc x t y : trail (x :: t) → tc parent_link x y → y ∈ t.
Proof.
  intros Ht Htc. revert t Ht.
  induction Htc as [x y Hxy|x z y Hxz _ IH]; intros t Ht.
  - destruct (trail_parent_link _ _ _ Ht Hxy) as [t' ->]. left.
  - destruct (trail_parent_link _ _ _ Ht Hxz) as [t' ->]. right.
    apply IH. by eapply trail_tail.
Qed.

Lemma trail_rtc x t d :
  trail (x :: t) → rtc parent_link x d → ∃ u, trail (d :: u).
Proof.
  intros Ht Hrtc. revert t Ht.
  induction Hrtc as [x|x z d Hxz _ IH]; intros t Ht; [by exists t|].
  destruct (trail_parent_link _ _ _ Ht Hxz) as [t' ->].
  eapply IH, trail_tail, Ht.
Qed.

Lemma trail_not_on_cycle x t : trail (x :: t) → ¬ on_cycle cats x.
Proof.
  intros Ht Hcyc. pose proof (trail_tc _ _ _ Ht Hcyc) as Hx.
  apply trail_NoDup in Ht. rewrite fmap_cons in Ht.
  apply NoDup_cons in Ht as [Hnot _]. by apply Hnot, list_elem_of_fmap_2.
Qed.

Lemma trail_not_leads_to_cycle x t : trail (x :: t) → ¬ leads_to_cycle cats x.
Proof.
  intros Ht (d & Hxd & Hd).
  destruct (trail_rtc _ _ _ Ht Hxd) as [u Hu]. by eapply trail_not_on_cycle.
Qed.

(** *** The walk along the trails *)

Context (items : list JewelryItem) (expanded : gset string).

#[local] Abbreviation CategoryCard := (CategoryCard items cats expanded).
#[local] Abbreviation shown := (shown cats expanded).

Lemma shown_NoDup c : NoDup (shown c).
Proof.
  unfold shown. case_bool_decide; [|by apply NoDup_nil].
  apply NoDup_filter, cats_NoDup.
Qed.

Lemma trail_shown c t s : trail (c :: t) → s ∈ shown c → trail (s :: c :: t).
Proof. intros Ht [Hs Hpar]%elem_of_shown. by constructor. Qed.

(** A card is produced as soon as the fuel covers what is left of the
    longest trail. *)
Lemma CategoryCard_total fuel c t b :
  trail (c :: t) → length cats ≤ fuel + length t →
  is_Some (CategoryCard fuel c b).
Proof.
  revert c t b. induction fuel as [|fuel IH]; intros c t b Ht Hlen.
  - apply trail_length in Ht. simpl in *. lia.
  - rewrite CategoryCard_S.
    assert (is_Some (mapM (λ s, CategoryCard fuel s true) (shown c)))
      as [kids Hkids].
    { apply mapM_is_Some_2, Forall_forall. intros s Hs. simpl.
      apply (IH s (c :: t)); [by apply trail_shown|simpl; lia]. }
    rewrite Hkids. simpl. eauto.
Qed.

(** Every category rendered in a card has a trail through the category of
    the card. *)
Lemma rendered_trail fuel c t b k x :
  CategoryCard fuel c b = Some k → trail (c :: t) → x ∈ rendered k →
  ∃ u, trail (x :: u) ∧ (c :: t) `suffix_of` (x :: u).
Proof.
  revert c t b k x. induction fuel as [|fuel IH]; intros c t b k x Hk Ht; [done|].
  apply CategoryCard_inv in Hk as (fuel' & [= <-] & Hc & _ & Hkids).
  destruct k as [c' ? ? ? ? ? ? kids]; simpl in *; subst c'.
  rewrite elem_of_cons. intros [->|(kid & Hx & Hkid)%list_elem_of_bind].
  { by exists t. }
  destruct (Forall2_elem_of_r _ _ _ _ Hkids Hkid) as (s & Hs & Hcard).
  destruct (IH s (c :: t) true kid x Hcard) as (u & Hu & Hsuf);
    [by apply trail_shown|done|].
  exists u. split; [done|]. by eapply suffix_cons_l.
Qed.

(** Cards made from distinct categories with trails through a common base
    render disjoint sets of categories. *)
Lemma rendered_bind_NoDup fuel base b (l : list Category) (ks : list Card) :
  Forall2 (λ s k, CategoryCard fuel s b = Some k) l ks →
  NoDup l →
  (∀ s, s ∈ l → trail (s :: base)) →
  (∀ s k, s ∈ l → CategoryCard fuel s b = Some k → NoDup (rendered k)) →
  NoDup (ks ≫= rendered).
Proof.
  intros Hks Hl Hbase Hnd.
  apply (NoDup_bind_tagged rendered _
    (λ s x, ∃ u, trail (x :: u) ∧ (s :: base) `suffix_of` (x :: u)) l ks Hks Hl).
  - intros s k Hs Hk. split; [by eapply Hnd|].
    intros x Hx. eapply rendered_trail; eauto.
  - intros s s' x _ _ (u & Hu & Hsuf) (u' & Hu' & Hsuf').
    assert (x :: u = x :: u') as Heq by (by apply trail_unique).
    rewrite <-Heq in Hsuf'.
    by injection (suffix_same_length _ _ _ Hsuf Hsuf' eq_refl).
Qed.

Lemma rendered_NoDup fuel c t b k :
  CategoryCard fuel c b = Some k → trail (c :: t) → NoDup (rendered k).
Proof.
  revert c t b k. induction fuel as [|fuel IH]; intros c t b k Hk Ht; [done|].
  pose proof Hk as Hk'.
  apply CategoryCard_inv in Hk' as (fuel' & [= <-] & Hc & _ & Hkids).
  destruct k as [c' ? ? ? ? ? ? kids]; simpl in *; subst c'.
  apply NoDup_cons. split.
  - intros (kid & Hx & Hkid)%list_elem_of_bind.
    destruct (Forall2_elem_of_r _ _ _ _ Hkids Hkid) as (s & Hs & Hcard).
    destruct (rendered_trail _ _ _ _ _ _ Hcard (trail_shown _ _ _ Ht Hs) Hx)
      as (u & Hu & Hsuf).
    assert (c :: u = c :: t) as [= ->] by (by apply trail_unique).
    apply suffix_length in Hsuf. simpl in Hsuf. lia.
  - eapply (rendered_bind_NoDup fuel (c :: t) true); [done|apply shown_NoDup| |].
    + intros s Hs. by apply trail_shown.
    + intros s kid Hs Hcard. eapply IH; [done|]. by apply trail_shown.
Qed.

(** *** The whole tab *)

#[local] Abbreviation topLevelCategories := (topLevelCategories cats).
#[local] Abbreviation render := (render items cats expanded).

Lemma trail_topLevel r : r ∈ topLevelCategories → trail [r].
Proof. intros [? ?]%elem_of_topLevelCategories. by constructor. Qed.

Lemma render_total fuel : length cats ≤ fuel → is_Some (render fuel).
Proof.
  intros Hfuel. unfold render.
  assert (is_Some (mapM (λ c, CategoryCard fuel c false) topLevelCategories))
    as [ks Hks].
  { apply mapM_is_Some_2, Forall_forall. intros r Hr. simpl.
    apply (CategoryCard_total fuel r []); [by apply trail_topLevel|simpl; lia]. }
  rewrite Hks. simpl. eauto.
Qed.

Lemma render_inv fuel v :
  render fuel = Some v →
  Forall2 (λ r k, CategoryCard fuel r false = Some k)
    topLevelCategories (view_cards v).
Proof.
  unfold render. intros Hv.
  destruct (mapM _ topLevelCategories) as [ks|] eqn:Hks; simplify_eq/=.
  by apply mapM_Some_1.
Qed.

Lemma render_mono fuel fuel' v :
  render fuel = Some v → fuel ≤ fuel' → render fuel' = Some v.
Proof.
  unfold render. intros Hv Hle.
  destruct (mapM _ topLevelCategories) as [ks|] eqn:Hks; simplify_eq/=.
  apply mapM_Some_1 in Hks.
  erewrite (mapM_Some_2 _ topLevelCategories ks); [done|].
  eapply Forall2_impl; [done|]. simpl. intros r k Hrk.
  eapply CategoryCard_mono; [exact Hrk|lia].
Qed.

Lemma render_rendered_trail fuel v x :
  render fuel = Some v → x ∈ rendered_all (view_cards v) → ∃ u, trail (x :: u).
Proof.
  intros Hv%render_inv (k & Hx & Hk)%list_elem_of_bind.
  destruct (Forall2_elem_of_r _ _ _ _ Hv Hk) as (r & Hr & Hcard).
  destruct (rendered_trail _ _ _ _ _ _ Hcard (trail_topLevel _ Hr) Hx)
    as (u & Hu & _).
  by exists u.
Qed.

Lemma render_NoDup fuel v :
  render fuel = Some v → NoDup (rendered_all (view_cards v)).
Proof.
  intros Hv%render_inv.
  eapply (rendered_bind_NoDup fuel [] false); [done| | |].
  - apply NoDup_filter, cats_NoDup.
  - apply trail_topLevel.
  - intros r k Hr Hcard. eapply rendered_NoDup; [done|]. by apply trail_topLevel.
Qed.

(** A trail is a chain of parent links that ends at a top-level category. *)
Lemma trail_reaches_top x u :
  trail (x :: u) → ∃ r, r ∈ topLevelCategories ∧ rtc parent_link x r.
Proof.
  revert x. induction u as [|p u IH]; intros x Ht.
  - inversion Ht; subst. exists x. split; [|done].
    by apply elem_of_topLevelCategories.
  - inversion Ht as [|? ? ? Ht' Hx Hpar]; subst.
    destruct (IH p Ht') as (r & Hr & Hpr). exists r. split; [done|].
    eapply rtc_l; [|done]. split_and!; [done| |done].
    eapply (trail_elem (p :: u)); [done|left].
Qed.

End Trails.

(** ** What a card holds *)

Lemma Card_ind_nested (P : Card → Prop) :
  (∀ k, Forall P (card_children k) → P k) → ∀ k, P k.
Proof.
  intros H. fix IH 1. intros k. apply H.
  destruct k as [? ? ? ? ? ? ? kids]. simpl.
  induction kids as [|kid kids IHkids]; constructor; [apply IH|apply IHkids].
Qed.

Lemma rendered_subcards k : rendered k = card_category <$> subcards k.
Proof.
  induction k as [k IH] using Card_ind_nested.
  destruct k as [c ? ? ? ? ? ? kids]. simpl in *. f_equal.
  induction IH as [|kid kids Hkid _ IHkids]; [done|].
  rewrite !bind_cons, fmap_app. by f_equal.
Qed.

Lemma rendered_all_subcards ks :
  rendered_all ks = card_category <$> (ks ≫= subcards).
Proof.
  unfold rendered_all. induction ks as [|k ks IH]; [done|].
  rewrite !bind_cons, fmap_app, rendered_subcards. by f_equal.
Qed.

Section Cards.
Context (items : list JewelryItem) (cats : list Category).
Context (expanded : gset string).

#[local] Abbreviation CategoryCard := (CategoryCard items cats expanded).
#[local] Abbreviation shown := (shown cats expanded).

Lemma children_categories fuel (l : list Category) (kids : list Card) b :
  Forall2 (λ s kid, CategoryCard fuel s b = Some kid) l kids →
  card_category <$> kids = l.
Proof.
  induction 1 as [|s kid l kids Hkid _ IH]; [done|]. csimpl. f_equal; [|done].
  by apply CategoryCard_inv in Hkid as (_ & _ & ? & _).
Qed.

(** Every card of the tree shows, in the order of the list, the categories
    its own category unfolds. *)
Lemma subcards_children fuel c b k k' :
  CategoryCard fuel c b = Some k → k' ∈ subcards k →
  card_category <$> card_children k' = shown (card_category k').
Proof.
  revert c b k. induction fuel as [|fuel IH]; intros c b k Hk; [done|].
  apply CategoryCard_inv in Hk as (fuel' & [= <-] & Hc & _ & Hkids).
  destruct k as [c' ? ? ? ? ? ? kids]; simpl in *; subst c'.
  rewrite elem_of_cons. intros [->|(kid & Hx & Hkid)%list_elem_of_bind].
  - simpl. by eapply children_categories.
  - destruct (Forall2_elem_of_r _ _ _ _ Hkids Hkid) as (s & Hs & Hcard).
    by eapply IH.
Qed.

Lemma shown_sublist c : shown c `sublist_of` cats.
Proof.
  unfold shown. case_bool_decide; [apply sublist_filter|apply sublist_nil_l].
Qed.

Lemma render_children fuel v k :
  render items cats expanded fuel = Some v →
  k ∈ view_cards v ≫= subcards →
  card_category <$> card_children k = shown (card_category k).
Proof.
  intros Hv%render_inv (k0 & Hk & Hk0)%list_elem_of_bind.
  destruct (Forall2_elem_of_r _ _ _ _ Hv Hk0) as (r & Hr & Hcard).
  by eapply subcards_children.
Qed.

Lemma render_top fuel v :
  render items cats expanded fuel = Some v →
  card_category <$> view_cards v = topLevelCategories cats.
Proof. intros Hv%render_inv. by eapply children_categories. Qed.

(** *** Two tiers *)

Lemma two_tiered_leaf fuel p s b :
  two_tiered cats → p ∈ cats → s ∈ cats →
  Category.parent_id s = Some (Category.id p) →
  ∃ k, CategoryCard (S fuel) s b = Some k ∧ card_children k = [].
Proof.
  intros Htt Hp Hs Hpar. rewrite CategoryCard_S.
  assert (shown s = []) as ->; [|by eexists].
  unfold shown. case_bool_decide; [|done].
  apply elem_of_nil_inv. intros g [Hg Hgs]%elem_of_getSubcategories.
  by eapply (Htt p s g).
Qed.

Lemma two_tiered_card fuel r b :
  two_tiered cats → r ∈ cats →
  ∃ k, CategoryCard (S (S fuel)) r b = Some k ∧
       Forall (λ kid, card_children kid = []) (card_children k).
Proof.
  intros Htt Hr. rewrite CategoryCard_S.
  assert (∃ kids,
            Forall2 (λ s kid, CategoryCard (S fuel) s true = Some kid) (shown r) kids ∧
            Forall (λ kid, card_children kid = []) kids)
    as (kids & Hkids%mapM_Some_2 & Hleaf).
  { assert (Forall (λ s, s ∈ cats ∧
              Category.parent_id s = Some (Category.id r)) (shown r)) as Hsh.
    { apply Forall_forall. intros s. apply elem_of_shown. }
    induction Hsh as [|s l [Hs Hpar] _ IH]; [by exists []|].
    destruct IH as (kids & Hkids & Hleaf).
    destruct (two_tiered_leaf fuel r s true Htt Hr Hs Hpar) as (kid & Hkid & Hnil).
    exists (kid :: kids). split; by constructor. }
  rewrite Hkids. by eexists.
Qed.

End Cards.

(** ** Counting in lists without repetition *)

Lemma NoDup_count_1 {A} `{EqDecision A} (l : list A) x :
  NoDup l → x ∈ l → length (filter (λ y, y = x) l) = 1.
Proof.
  induction 1 as [|a l Ha Hl IH]; [by intros ?%elem_of_nil|].
  rewrite elem_of_cons, filter_cons. intros [->|Hx].
  - rewrite decide_True by done. simpl. f_equal.
    apply length_zero_iff_nil, elem_of_nil_inv.
    intros y [-> ?]%list_elem_of_filter. done.
  - rewrite decide_False by (by intros ->). by apply IH.
Qed.

Lemma subcards_self k : k ∈ subcards k.
Proof. destruct k. left. Qed.

Lemma subcards_child k kid : kid ∈ card_children k → kid ∈ subcards k.
Proof.
  intros Hkid. destruct k as [? ? ? ? ? ? ? kids]; simpl in *. right.
  apply list_elem_of_bind. exists kid. split; [apply subcards_self|done].
Qed.

Lemma subcards_trans k0 k k' :
  k ∈ subcards k0 → k' ∈ subcards k → k' ∈ subcards k0.
Proof.
  revert k k'. induction k0 as [k0 IH] using Card_ind_nested. intros k k'.
  destruct k0 as [? ? ? ? ? ? ? kids]; simpl in *.
  rewrite !elem_of_cons. intros [->|(kid & Hk & Hkid)%list_elem_of_bind] Hk'.
  - simpl in Hk'. by apply elem_of_cons in Hk'.
  - right. apply list_elem_of_bind. exists kid. split; [|done].
    rewrite Forall_forall in IH. by eapply IH.
Qed.

Lemma tiers_leaves k :
  Forall (λ kid, card_children kid = []) (card_children k) → tiers k ≤ 2.
Proof.
  destruct k as [? ? ? ? ? ? ? kids]; simpl. intros Hkids.
  assert (max_list (tiers <$> kids) ≤ 1); [|lia].
  induction Hkids as [|kid kids Hkid _ IH]; [simpl; lia|].
  destruct kid; simpl in *; subst. csimpl. apply Nat.max_lub; [lia|exact IH].
Qed.

Lemma nonempty_ids_top_unparented cats :
  (∀ c, c ∈ cats → Category.id c ≠ "") → top_unparented cats.
Proof.
  intros Hne r p _ Hp [Hr|Hr]%truthy_false; rewrite Hr; [done|].
  intros [= Hid]. by apply (Hne p).
Qed.

(** ** The rendering of the category tree *)

(** C1 (as amended).  For a category list with distinct, non-empty ids and
    any items and any set of expanded ids, the tab is rendered, and in it:
    the top-level cards are the categories with an absent or empty
    [parent_id], in the order of the list; every card, at any depth, has
    for nested cards exactly the categories it unfolds (those whose
    [parent_id] is the id of its category when it is expanded, none
    otherwise), in the order of the list; and every nested card's category
    has the id of the card above it as [parent_id] and is rendered exactly
    once in the whole tab. *)
Theorem C1_children_under_their_parent
    (items : list JewelryItem) (cats : list Category) (expanded : gset string) :
  NoDup (Category.id <$> cats) →
  (∀ c, c ∈ cats → Category.id c ≠ "") →
  ∃ v,
    (∀ fuel, length cats ≤ fuel → render items cats expanded fuel = Some v) ∧
    card_category <$> view_cards v = topLevelCategories cats ∧
    topLevelCategories cats `sublist_of` cats ∧
    (∀ k, k ∈ view_cards v →
       Category.parent_id (card_category k) = None ∨
       Category.parent_id (card_category k) = Some "") ∧
    (∀ k, k ∈ view_cards v ≫= subcards →
       card_category <$> card_children k =
         (if bool_decide (Category.id (card_category k) ∈ expanded)
          then getSubcategories cats (Category.id (card_category k)) else []) ∧
       card_category <$> card_children k `sublist_of` cats ∧
       ∀ kid, kid ∈ card_children k →
         Category.parent_id (card_category kid) =
           Some (Category.id (card_category k)) ∧
         length (filter (λ x, x = card_category kid)
                   (rendered_all (view_cards v))) = 1).
Proof.
  intros Hids Hne. pose proof (nonempty_ids_top_unparented _ Hne) as Htop.
  destruct (render_total cats Hids Htop items expanded (length cats))
    as [v Hv]; [done|].
  exists v. split_and!.
  - intros fuel Hfuel. by eapply render_mono.
  - by eapply render_top.
  - apply sublist_filter.
  - intros k Hk. apply truthy_false.
    assert (card_category k ∈ topLevelCategories cats) as Hin.
    { erewrite <-render_top by done. by apply list_elem_of_fmap_2. }
    by apply elem_of_topLevelCategories in Hin as [_ ?].
  - intros k Hk. pose proof (render_children _ _ _ _ _ _ Hv Hk) as Hch.
    split_and!; [done|rewrite Hch; apply shown_sublist|].
    intros kid Hkid.
    assert (card_category kid ∈ shown cats expanded (card_category k)) as Hin.
    { rewrite <-Hch. by apply list_elem_of_fmap_2. }
    split; [by apply elem_of_shown in Hin as [_ ?]|].
    apply NoDup_count_1; [by eapply render_NoDup|].
    rewrite rendered_all_subcards. apply list_elem_of_fmap_2.
    apply list_elem_of_bind in Hk as (k0 & Hk & Hk0).
    apply list_elem_of_bind. exists k0. split; [|done].
    eapply subcards_trans; [done|]. by apply subcards_child.
Qed.

Lemma C1_children_under_their_parent_witness :
  let cats := [Sample.rings; Sample.heavy; Sample.antique] in
  let expanded : gset string := {["c1"]} in
  ∃ v,
    (∀ fuel, length cats ≤ fuel → render Sample.items cats expanded fuel = Some v) ∧
    card_category <$> view_cards v = topLevelCategories cats ∧
    topLevelCategories cats `sublist_of` cats ∧
    (∀ k, k ∈ view_cards v →
       Category.parent_id (card_category k) = None ∨
       Category.parent_id (card_category k) = Some "") ∧
    (∀ k, k ∈ view_cards v ≫= subcards →
       card_category <$> card_children k =
         (if bool_decide (Category.id (card_category k) ∈ expanded)
          then getSubcategories cats (Category.id (card_category k)) else []) ∧
       card_category <$> card_children k `sublist_of` cats ∧
       ∀ kid, kid ∈ card_children k →
         Category.parent_id (card_category kid) =
           Some (Category.id (card_category k)) ∧
         length (filter (λ x, x = card_category kid)
                   (rendered_all (view_cards v))) = 1).
Proof.
  apply (C1_children_under_their_parent Sample.items
           [Sample.rings; Sample.heavy; Sample.antique] {["c1"]}).
  - apply (bool_decide_unpack _). vm_compute. exact I.
  - apply Forall_forall. apply (bool_decide_unpack _). vm_compute. exact I.
Defined.

(** The card of [Sample.loop] never finishes when its id is expanded: the
    category is among the categories it unfolds. *)
Lemma loop_card_diverges items fuel b :
  CategoryCard items [Sample.chains; Sample.loop] {[""]} fuel Sample.loop b = None.
Proof.
  revert b. induction fuel as [|fuel IH]; intros b; [done|].
  rewrite CategoryCard_S.
  change (shown [Sample.chains; Sample.loop] {[""]} Sample.loop)
    with [Sample.chains; Sample.loop].
  rewrite (mapM_None_2 _ [Sample.chains; Sample.loop]); [done|].
  apply Exists_cons. right. apply Exists_cons. left. apply IH.
Qed.

Lemma loop_render_diverges items fuel :
  render items [Sample.chains; Sample.loop] {[""]} fuel = None.
Proof.
  unfold render.
  change (topLevelCategories [Sample.chains; Sample.loop])
    with [Sample.chains; Sample.loop].
  rewrite (mapM_None_2 _ [Sample.chains; Sample.loop]); [done|].
  apply Exists_cons. right. apply Exists_cons. left. apply loop_card_diverges.
Qed.

(** C1 fails as stated: the ids of [Sample.chains] and [Sample.loop] are
    distinct; while nothing is expanded both are rendered as top-level
    cards although the [parent_id] of [Sample.chains] is present (it is the
    empty string); and once the id of [Sample.loop] is expanded no amount
    of unfolding completes the rendering, because that category is nested
    under itself again and again. *)
Lemma C1_counterexample :
  let cats := [Sample.chains; Sample.loop] in
  NoDup (Category.id <$> cats) ∧
  (∃ v k, render [] cats ∅ 1 = Some v ∧ k ∈ view_cards v ∧
          card_category k = Sample.chains ∧
          Category.parent_id (card_category k) ≠ None) ∧
  (∀ fuel, render [] cats {[""]} fuel = None).
Proof.
  split_and!.
  - apply (bool_decide_unpack _). vm_compute. exact I.
  - eexists _, _. split_and!; [vm_compute; reflexivity|left|done..].
  - apply loop_render_diverges.
Qed.

(** C9 (as amended).  For a category list with distinct, non-empty ids the
    recursive rendering terminates: with fuel for as many levels as there
    are categories it yields a view, and more fuel yields the same view.
    Every category rendered in it is a listed category that reaches a
    top-level category through finitely many parent links, is not on a cycle
    of parent links and does not lead into one, and is rendered once. *)
Theorem C9_tree_walk_terminates
    (items : list JewelryItem) (cats : list Category) (expanded : gset string) :
  NoDup (Category.id <$> cats) →
  (∀ c, c ∈ cats → Category.id c ≠ "") →
  ∃ v,
    (∀ fuel, length cats ≤ fuel → render items cats expanded fuel = Some v) ∧
    NoDup (rendered_all (view_cards v)) ∧
    (∀ x, x ∈ rendered_all (view_cards v) →
       x ∈ cats ∧
       (∃ r, r ∈ topLevelCategories cats ∧ rtc (parent_link cats) x r) ∧
       ¬ on_cycle cats x ∧
       ¬ leads_to_cycle cats x).
Proof.
  intros Hids Hne. pose proof (nonempty_ids_top_unparented _ Hne) as Htop.
  destruct (render_total cats Hids Htop items expanded (length cats))
    as [v Hv]; [done|].
  exists v. split_and!.
  - intros fuel Hfuel. by eapply render_mono.
  - by eapply render_NoDup.
  - intros x Hx.
    destruct (render_rendered_trail cats items expanded _ _ _ Hv Hx) as [u Hu].
    split_and!.
    + eapply trail_elem; [done|left].
    + by eapply trail_reaches_top.
    + by eapply trail_not_on_cycle.
    + by eapply trail_not_leads_to_cycle.
Qed.

Lemma C9_tree_walk_terminates_witness :
  let cats := [Sample.antique; Sample.heavy; Sample.rings] in
  let expanded : gset string := {["c1"; "c2"; "c3"]} in
  ∃ v,
    (∀ fuel, length cats ≤ fuel → render Sample.items cats expanded fuel = Some v) ∧
    NoDup (rendered_all (view_cards v)) ∧
    (∀ x, x ∈ rendered_all (view_cards v) →
       x ∈ cats ∧
       (∃ r, r ∈ topLevelCategories cats ∧ rtc (parent_link cats) x r) ∧
       ¬ on_cycle cats x ∧
       ¬ leads_to_cycle cats x).
Proof.
  apply (C9_tree_walk_terminates Sample.items
           [Sample.antique; Sample.heavy; Sample.rings] {["c1"; "c2"; "c3"]}).
  - apply (bool_decide_unpack _). vm_compute. exact I.
  - apply Forall_forall. apply (bool_decide_unpack _). vm_compute. exact I.
Defined.

(** C9 fails as stated: [Sample.loop] has a self-referencing [parent_id], so
    it is on a cycle of parent links; the ids of the list are distinct; yet
    the category is rendered (as a top-level card, since the empty
    [parent_id] counts as absent), and once its id is expanded the walk
    visits it again and again and no amount of fuel completes the
    rendering. *)
Lemma C9_counterexample :
  let cats := [Sample.chains; Sample.loop] in
  NoDup (Category.id <$> cats) ∧
  on_cycle cats Sample.loop ∧
  (∃ v, render [] cats ∅ 1 = Some v ∧
        Sample.loop ∈ rendered_all (view_cards v)) ∧
  (∀ fuel, render [] cats {[""]} fuel = None).
Proof.
  split_and!.
  - apply (bool_decide_unpack _). vm_compute. exact I.
  - apply tc_once. split_and!; [right; left|right; left|done].
  - eexists. split; [vm_compute; reflexivity|right; left].
  - apply loop_render_diverges.
Qed.

(** C2 (as amended).  The presenter is recursive and not limited to one
    level of nesting.  In every rendering, each card at any depth that is
    expanded has for nested cards exactly the listed categories whose
    [parent_id] is the id of its category, in the order of the list, and a
    collapsed card has none; so every listed child of a rendered, expanded
    card is rendered under it, children of children included.  A rendering
    exists for every list with distinct, non-empty ids.  When no category
    listed under another has categories listed under itself, the tab is
    rendered with fuel for two levels and has at most two tiers: the cards
    nested under the top-level cards have no nested cards. *)
Theorem C2_two_tiers
    (items : list JewelryItem) (cats : list Category) (expanded : gset string) :
  (∀ fuel v,
     render items cats expanded fuel = Some v →
     ∀ k, k ∈ view_cards v ≫= subcards →
       card_category <$> card_children k =
         (if bool_decide (Category.id (card_category k) ∈ expanded)
          then filter (λ cat, Category.parent_id cat =
                              Some (Category.id (card_category k))) cats
          else []) ∧
       (Category.id (card_category k) ∈ expanded →
        ∀ g, g ∈ cats →
          Category.parent_id g = Some (Category.id (card_category k)) →
          ∃ kid, kid ∈ card_children k ∧ card_category kid = g)) ∧
  (NoDup (Category.id <$> cats) →
   (∀ c, c ∈ cats → Category.id c ≠ "") →
   ∃ v, ∀ fuel, length cats ≤ fuel → render items cats expanded fuel = Some v) ∧
  (two_tiered cats →
   ∃ v,
     (∀ fuel, 2 ≤ fuel → render items cats expanded fuel = Some v) ∧
     card_category <$> view_cards v =
       filter (λ cat, truthy (Category.parent_id cat) = false) cats ∧
     (∀ k, k ∈ view_cards v →
        card_category <$> card_children k =
          (if bool_decide (Category.id (card_category k) ∈ expanded)
           then filter (λ cat, Category.parent_id cat =
                               Some (Category.id (card_category k))) cats
           else []) ∧
        (∀ kid, kid ∈ card_children k → card_children kid = []) ∧
        tiers k ≤ 2)).
Proof.
  split_and!.
  - intros fuel v Hv k Hk.
    pose proof (render_children _ _ _ _ _ _ Hv Hk) as Hch.
    split; [exact Hch|]. intros Hopen g Hg Hpar.
    assert (g ∈ card_category <$> card_children k)
      as (kid & -> & Hkid)%list_elem_of_fmap; [|by exists kid].
    rewrite Hch. unfold shown. rewrite bool_decide_eq_true_2 by done.
    by apply elem_of_getSubcategories.
  - intros Hids Hne. pose proof (nonempty_ids_top_unparented _ Hne) as Htop.
    destruct (render_total cats Hids Htop items expanded (length cats))
      as [v Hv]; [done|].
    exists v. intros fuel Hfuel. by eapply render_mono.
  - intros Htt.
    assert (∃ ks,
              Forall2 (λ r k, CategoryCard items cats expanded 2 r false = Some k)
                (topLevelCategories cats) ks ∧
              Forall (λ k, Forall (λ kid, card_children kid = [])
                             (card_children k)) ks)
      as (ks & Hks & Hleaf).
    { assert (Forall (λ r, r ∈ cats) (topLevelCategories cats)) as Hin.
      { apply Forall_forall. by intros r [? _]%elem_of_topLevelCategories. }
      induction Hin as [|r l Hr _ IH]; [by exists []|].
      destruct IH as (ks & Hks & Hleaf).
      destruct (two_tiered_card items cats expanded 0 r false Htt Hr)
        as (k & Hk & Hkleaf).
      exists (k :: ks). split; by constructor. }
    assert (render items cats expanded 2 =
              Some (mkView ks (bool_decide (length (topLevelCategories cats) = 0))))
      as Hv.
    { unfold render. by rewrite (mapM_Some_2 _ _ _ Hks). }
    eexists. split_and!.
    + intros fuel Hfuel. by eapply render_mono.
    + by eapply render_top.
    + simpl. intros k Hk. split_and!.
      * eapply (render_children _ _ _ _ _ _ Hv). simpl.
        apply list_elem_of_bind. exists k. split; [apply subcards_self|done].
      * rewrite Forall_forall in Hleaf. apply Forall_forall. by apply Hleaf.
      * apply tiers_leaves. rewrite Forall_forall in Hleaf. by apply Hleaf.
Qed.

Lemma C2_two_tiers_witness :
  let cats := [Sample.chains; Sample.heavy; Sample.rings] in
  let expanded : gset string := {["c1"; "c2"]} in
  (∃ v,
     (∀ fuel, 2 ≤ fuel → render Sample.items cats expanded fuel = Some v) ∧
     card_category <$> view_cards v =
       filter (λ cat, truthy (Category.parent_id cat) = false) cats ∧
     (∀ k, k ∈ view_cards v →
        card_category <$> card_children k =
          (if bool_decide (Category.id (card_category k) ∈ expanded)
           then filter (λ cat, Category.parent_id cat =
                               Some (Category.id (card_category k))) cats
           else []) ∧
        (∀ kid, kid ∈ card_children k → card_children kid = []) ∧
        tiers k ≤ 2)) ∧
  (∃ v,
     render Sample.items [Sample.rings; Sample.heavy; Sample.antique]
       expanded 3 = Some v ∧
     ∀ k, k ∈ view_cards v ≫= subcards →
       Category.id (card_category k) ∈ expanded →
       ∀ g, g ∈ [Sample.rings; Sample.heavy; Sample.antique] →
         Category.parent_id g = Some (Category.id (card_category k)) →
         ∃ kid, kid ∈ card_children k ∧ card_category kid = g).
Proof.
  split.
  - apply (C2_two_tiers Sample.items
             [Sample.chains; Sample.heavy; Sample.rings] {["c1"; "c2"]}).
    assert (Forall (λ p, Forall (λ s, Forall (λ g,
              Category.parent_id s = Some (Category.id p) →
              Category.parent_id g ≠ Some (Category.id s))
              [Sample.chains; Sample.heavy; Sample.rings])
              [Sample.chains; Sample.heavy; Sample.rings])
              [Sample.chains; Sample.heavy; Sample.rings]) as H.
    { apply (bool_decide_unpack _). vm_compute. exact I. }
    intros p s g Hp Hs Hg.
    rewrite Forall_forall in H. specialize (H p Hp).
    rewrite Forall_forall in H. specialize (H s Hs).
    rewrite Forall_forall in H. exact (H g Hg).
  - destruct (render Sample.items [Sample.rings; Sample.heavy; Sample.antique]
                {["c1"; "c2"]} 3) as [v|] eqn:Hv;
      [|vm_compute in Hv; discriminate].
    exists v. split; [reflexivity|]. intros k Hk.
    exact (proj2 (proj1 (C2_two_tiers Sample.items
                           [Sample.rings; Sample.heavy; Sample.antique]
                           {["c1"; "c2"]}) 3 v Hv k Hk)).
Defined.

(** C2 fails as stated: with a category whose parent is itself a
    subcategory, and both ancestors expanded, the child of the child is
    rendered, in a third tier. *)
Lemma C2_counterexample :
  let cats := [Sample.rings; Sample.heavy; Sample.antique] in
  ∃ v k kid grandkid,
    render [] cats {["c1"; "c2"]} 3 = Some v ∧
    k ∈ view_cards v ∧ kid ∈ card_children k ∧ grandkid ∈ card_children kid ∧
    card_category k = Sample.rings ∧ card_category kid = Sample.heavy ∧
    card_category grandkid = Sample.antique ∧
    tiers k = 3.
Proof.
  eexists _, _, _, _. split_and!;
    [vm_compute; reflexivity|left|left|left|done..].
Qed.

(** ** The form and the delete guard *)

(** C5.  On every submission, create or edit, the row sent to the backend
    carries the form's name, description and image_url, and for
    [parent_id] null when the form's [parent_id] is the empty string and
    the form's value otherwise; it never carries the empty string; and the
    submission sends that row in its first effect and issues no other
    write. *)
Theorem C5_parent_id_normalised (st : State) (write : WriteReply) (load : SelectReply) :
  let form := categoryFormData st in
  let row := submitData form in
  SubmitData.parent_id row =
    (if decide (FormData.parent_id form = "") then None
     else Some (FormData.parent_id form)) ∧
  SubmitData.parent_id row ≠ Some "" ∧
  SubmitData.name row = FormData.name form ∧
  SubmitData.description row = FormData.description form ∧
  SubmitData.image_url row = FormData.image_url form ∧
  ∃ rest,
    (handleCategorySubmit write load st).2 =
      match editingCategory st with
      | Some editing => RemoteUpdate row (Category.id editing)
      | None => RemoteInsert [row]
      end :: rest ∧
    Forall (λ e, is_remote_write e = false) rest.
Proof.
  intros form row.
  assert (SubmitData.parent_id row =
            (if decide (FormData.parent_id form = "") then None
             else Some (FormData.parent_id form))) as Hrow.
  { unfold row, submitData. simpl.
    destruct (String.eqb_spec (FormData.parent_id form) "") as [Heq|Hne]; simpl.
    - by rewrite decide_True.
    - by rewrite decide_False. }
  split_and!; [done| |done..|].
  - rewrite Hrow. case_decide; congruence.
  - unfold handleCategorySubmit, bind, get, try_catch.
    change (submitData (categoryFormData st)) with row. clearbody row.
    destruct (editingCategory st), write, load as [[data|]|]; simpl;
      eexists; (split; [reflexivity|repeat constructor]).
Qed.

(** C8.  When the write of a submission fails, whether the backend answers
    with an error or the call is rejected, the handler logs, shows the
    alert and leaves the whole state as it was: the form stays open with
    its fields and the editing selection.  When the write succeeds, the
    handler asks the backend for the category list, replaces the list by
    the rows it gets (it keeps the old list when it gets none), and then
    closes the form, empties its fields and clears the editing selection. *)
Theorem C8_submit_outcome (st : State) :
  let call :=
    match editingCategory st with
    | Some editing =>
        RemoteUpdate (submitData (categoryFormData st)) (Category.id editing)
    | None => RemoteInsert [submitData (categoryFormData st)]
    end in
  let failed :=
    (Done (), st,
     [call; ConsoleError "Error saving category:";
      Alert "Error saving category. Please check your permissions and try again."]) in
  let reset data :=
    mkState data false None (expandedCategories st) (FormData.mk "" "" "" "") in
  (∀ load, handleCategorySubmit WriteError load st = failed) ∧
  (∀ load, handleCategorySubmit WriteRejected load st = failed) ∧
  (∀ data,
     handleCategorySubmit WriteOk (SelectData (Some data)) st =
       (Done (), reset data, [call; RemoteSelect; OnCategoriesChange])) ∧
  handleCategorySubmit WriteOk (SelectData None) st =
    (Done (), reset (categories st), [call; RemoteSelect]) ∧
  handleCategorySubmit WriteOk SelectRejected st =
    (Done (), reset (categories st),
     [call; RemoteSelect; ConsoleError "Error loading categories:"]).
Proof.
  unfold handleCategorySubmit, bind, get, try_catch. simpl.
  destruct (editingCategory st) as [editing|]; simpl;
    split_and!; try done; by intros [[?|]|].
Qed.

(** C3.  A delete request for the category [id], named [categoryName]:
    with [n > 0] items of that exact category it only shows the alert
    citing [n] items; otherwise with [m > 0] categories whose [parent_id]
    is [id] it only shows the alert citing [m] subcategories; otherwise it
    asks for confirmation, and it issues the remote delete exactly when
    the confirmation is granted.  In particular a remote call of any kind
    is issued only when both counts are 0 and the confirmation is
    granted. *)
Theorem C3_delete_guard (items : list JewelryItem) (st : State)
    (confirmed : bool) (write : WriteReply) (load : SelectReply)
    (id categoryName : string) :
  let itemCount :=
    length (filter (λ item, JewelryItem.category item = categoryName) items) in
  let subcategoryCount :=
    length (filter (λ cat, Category.parent_id cat = Some id) (categories st)) in
  let run := handleDeleteCategory items confirmed write load id categoryName st in
  (0 < itemCount →
     run = (Done (), st,
            [Alert ("Cannot delete category " +:+ dquote +:+ categoryName +:+
                    dquote +:+ " because it contains " +:+ pretty itemCount +:+
                    " items. Please move or delete the items first.")])) ∧
  (itemCount = 0 → 0 < subcategoryCount →
     run = (Done (), st,
            [Alert ("Cannot delete category " +:+ dquote +:+ categoryName +:+
                    dquote +:+ " because it has " +:+ pretty subcategoryCount +:+
                    " subcategories. Please delete the subcategories first.")])) ∧
  (itemCount = 0 → subcategoryCount = 0 → confirmed = false →
     run = (Done (), st, [Confirm (confirmQuestion categoryName)])) ∧
  (itemCount = 0 → subcategoryCount = 0 → confirmed = true →
     ∃ st' rest,
       run = (Done (), st',
              Confirm (confirmQuestion categoryName) :: RemoteDelete id :: rest) ∧
       Forall (λ e, is_remote_write e = false) rest) ∧
  (Exists (λ e, is_remote e = true) run.2 ↔
     itemCount = 0 ∧ subcategoryCount = 0 ∧ confirmed = true).
Proof.
  intros itemCount subcategoryCount run. subst run.
  unfold handleDeleteCategory, bind, get. simpl.
  fold itemCount subcategoryCount.
  destruct (decide (0 < itemCount)) as [Hitems|Hitems].
  { rewrite bool_decide_eq_true_2 by done. unfold emit. simpl.
    split_and!; try (intros; lia); [done|].
    rewrite Exists_cons, Exists_nil. simpl. split; [intros [?|[]]; done|lia]. }
  rewrite bool_decide_eq_false_2 by done.
  destruct (decide (0 < subcategoryCount)) as [Hsubs|Hsubs].
  { rewrite bool_decide_eq_true_2 by done. unfold emit. simpl.
    split_and!; try (intros; lia); [done|].
    rewrite Exists_cons, Exists_nil. simpl. split; [intros [?|[]]; done|lia]. }
  rewrite bool_decide_eq_false_2 by done.
  destruct confirmed; unfold emit, try_catch, bind; simpl.
  - split_and!; try (intros; lia).
    + intros _ _ _.
      destruct write, load as [[data|]|]; simpl;
        eexists _, _; (split; [reflexivity|repeat constructor]).
    + split; [intros _; split_and!; [lia|lia|done]|]. intros _.
      destruct write, load as [[data|]|]; simpl;
        apply Exists_cons; right; apply Exists_cons; by left.
  - split_and!; try (intros; lia); try done.
    rewrite Exists_cons, Exists_nil. simpl.
    split; [intros [?|[]]; done|intros (_ & _ & ?); done].
Qed.

Lemma C3_delete_guard_witness :
  let st := mkState [Sample.rings; Sample.heavy] false None ∅ FormData.empty in
  handleDeleteCategory Sample.items true WriteOk (SelectData (Some [])) "c1" "Rings" st
    = (Done (), st, [Alert (itemsAlert "Rings" 2)]) ∧
  handleDeleteCategory [] true WriteOk (SelectData (Some [])) "c1" "Rings" st
    = (Done (), st, [Alert (subcategoriesAlert "Rings" 1)]) ∧
  handleDeleteCategory [] false WriteOk (SelectData (Some [])) "c2" "Heavy Rings" st
    = (Done (), st, [Confirm (confirmQuestion "Heavy Rings")]) ∧
  ∃ st' rest,
    handleDeleteCategory [] true WriteOk (SelectData (Some [Sample.rings]))
      "c2" "Heavy Rings" st
      = (Done (), st',
         Confirm (confirmQuestion "Heavy Rings") :: RemoteDelete "c2" :: rest) ∧
    Forall (λ e, is_remote_write e = false) rest.
Proof.
  intros st. split_and!.
  - apply (C3_delete_guard Sample.items st true WriteOk (SelectData (Some []))
             "c1" "Rings").
    vm_compute. lia.
  - apply (C3_delete_guard [] st true WriteOk (SelectData (Some [])) "c1" "Rings").
    + reflexivity.
    + vm_compute. lia.
  - apply (C3_delete_guard [] st false WriteOk (SelectData (Some []))
             "c2" "Heavy Rings"); reflexivity.
  - apply (C3_delete_guard [] st true WriteOk (SelectData (Some [Sample.rings]))
             "c2" "Heavy Rings"); reflexivity.
Defined.

(** ** The gold price poller *)

Section Poller.
Import GoldPrice.

(** A property that holds at the start and that every event preserves
    holds after every run. *)
Lemma run_invariant (P : Hook → Prop) events h0 h :
  P h0 →
  (∀ e h h', P h → step e h = Some h' → P h') →
  run events h0 = Some h → P h.
Proof.
  intros H0 Hstep. revert h0 H0.
  induction events as [|e events IH]; intros h0 H0; simpl.
  - by intros [= <-].
  - destruct (step e h0) as [h1|] eqn:He; simpl; [|done].
    apply IH. by eapply Hstep.
Qed.

(** The interval is armed only while the hook is mounted. *)
Lemma interval_mounted events h :
  run events init = Some h → interval h = true → mounted h = true.
Proof.
  apply (run_invariant (λ h, interval h = true → mounted h = true)); [done|].
  intros e h1 h2 Hinv.
  destruct e, h1 as [? ? ? [] [] n]; simpl in *;
    repeat case_match; intros; simplify_eq/=; auto.
Qed.







End Poller.

(** ** The access policies after the migration *)

Section Policies.
Import Sql.

Lemma run_script_app script1 script2 db :
  Sql.run (script1 ++ script2) db = (db' ← Sql.run script1 db; Sql.run script2 db').
Proof.
  revert db. induction script1 as [|s script1 IH]; intros db; simpl; [done|].
  destruct (exec s db) as [db1|]; simpl; [apply IH|done].
Qed.

(** The drops remove the policies they name and nothing else. *)
Lemma run_drops (keys : list (string * Table)) db :
  Sql.run (map (λ nt, DropPolicyIfExists nt.1 nt.2) keys) db =
    Some (mkDb (filter (λ p, (name p, table p) ∉ keys) (policies db)) (rls db)).
Proof.
  revert db. induction keys as [|[n t] keys IH]; intros [ps r]; simpl.
  - f_equal. f_equal. induction ps as [|p ps IHps]; [done|].
    rewrite filter_cons, decide_True by apply not_elem_of_nil. by f_equal.
  - rewrite IH. simpl. f_equal. f_equal. rewrite list_filter_filter.
    apply list_filter_iff. intros p. unfold named. rewrite not_elem_of_cons.
    split.
    + intros [Hkeys Hnt]. split; [|done]. intros [= ? ?]. by apply Hnt.
    + intros [Hnt Hkeys]. split; [done|]. intros [? ?]. apply Hnt. by f_equal.
Qed.

Lemma run_enables db :
  ∃ r,
    Sql.run [EnableRowLevelSecurity categories;
             EnableRowLevelSecurity jewelry_items;
             EnableRowLevelSecurity admin_settings] db = Some (mkDb (policies db) r) ∧
    ∀ t, t ∈ r.
Proof.
  destruct db as [ps r]. simpl. eexists. split; [reflexivity|].
  intros t. repeat case_bool_decide; destruct t;
    repeat (first [done | apply elem_of_cons; first [by left | right]]).
Qed.

(** Policies whose names are new on their tables and differ from each
    other are created one after the other. *)
Lemma run_creates (ps : list Policy) (left : list Policy) r :
  NoDup ((λ p, (name p, table p)) <$> ps) →
  (∀ p q, p ∈ left → q ∈ ps → (name p, table p) ≠ (name q, table q)) →
  Sql.run (map CreatePolicy ps) (mkDb left r) = Some (mkDb (left ++ ps) r).
Proof.
  revert left. induction ps as [|q ps IH]; intros left Hnd Hleft; simpl.
  - by rewrite app_nil_r.
  - rewrite fmap_cons in Hnd. apply NoDup_cons in Hnd as [Hq Hnd].
    rewrite bool_decide_eq_false_2.
    + simpl. rewrite IH; [by rewrite <-app_assoc|done|].
      intros p q' [Hp|Hp]%elem_of_app Hq'.
      * apply Hleft; [done|by right].
      * apply list_elem_of_singleton in Hp as ->.
        intros Heq. apply Hq. rewrite Heq.
        by apply (list_elem_of_fmap_2 (λ p, (name p, table p))).
    + intros (p & Hp & Hname & Htable)%Exists_exists.
      apply (Hleft p q); [done|left|by f_equal].
Qed.

(** C10.  Run on any database, the migration succeeds, enables row level
    security on the three tables, keeps the policies it does not name and
    replaces the others by its eleven policies.  Those grant what the role
    matrix says: [SELECT] on [categories] and [jewelry_items] to [public];
    [INSERT], [UPDATE] and [DELETE] on them to [authenticated] only;
    [SELECT], [INSERT] and [UPDATE] on [admin_settings] to [authenticated]
    only.  When the database had no policy besides those the migration
    names, the eleven policies are all there is: the grants of the database
    are those of the matrix, no policy on [admin_settings] names [public],
    and none is for [DELETE]. *)
Theorem C10_role_matrix (db0 : Db) :
  ∃ db,
    Sql.run migration db0 = Some db ∧
    policies db =
      filter (λ p, (name p, table p) ∉ dropped) (policies db0) ++ created ∧
    (∀ t, t ∈ rls db) ∧
    (∀ t c,
       role <$> filter (λ p, table p = t ∧ command p = c) created =
       role_matrix t c) ∧
    ((∀ p, p ∈ policies db0 → (name p, table p) ∈ dropped) →
     policies db = created ∧
     (∀ t c, grantees db t c = role_matrix t c) ∧
     (∀ p, p ∈ policies db → table p = admin_settings →
           role p = authenticated ∧ command p ≠ DELETE) ∧
     (∀ p, p ∈ policies db → role p = public → command p = SELECT)).
Proof.
  unfold migration.
  rewrite run_script_app, run_drops. cbn [mbind option_bind].
  rewrite run_script_app.
  destruct (run_enables
              (mkDb (filter (λ p, (name p, table p) ∉ dropped) (policies db0))
                 (rls db0))) as (r & -> & Hr).
  cbn [mbind option_bind policies]. rewrite run_creates.
  - eexists. split_and!; [done..| |].
    + intros t c. by destruct t, c.
    + intros Hdropped. simpl.
      assert (filter (λ p, (name p, table p) ∉ dropped) (policies db0) = [])
        as ->.
      { apply elem_of_nil_inv. intros p [Hnot Hp]%list_elem_of_filter.
        by apply Hnot, Hdropped. }
      simpl. split_and!; [done| | |].
      * intros t c. by destruct t, c.
      * intros p Hp.
        repeat (apply elem_of_cons in Hp as [->|Hp]; [done|]).
        by apply elem_of_nil in Hp.
      * intros p Hp.
        repeat (apply elem_of_cons in Hp as [->|Hp]; [done|]).
        by apply elem_of_nil in Hp.
  - apply (bool_decide_unpack _). vm_compute. exact I.
  - intros p q [Hnot _]%list_elem_of_filter Hq Heq. apply Hnot. rewrite Heq.
    clear Heq. revert q Hq. apply Forall_forall.
    apply (bool_decide_unpack _). vm_compute. exact I.
Qed.

Lemma C10_role_matrix_witness :
  let db0 :=
    mkDb [mkPolicy "Categories are publicly readable" categories SELECT
            authenticated (Some TRUE) None;
          mkPolicy "Authenticated users can insert admin settings" admin_settings
            INSERT public None (Some TRUE)] [categories] in
  ∃ db,
    Sql.run migration db0 = Some db ∧
    policies db = created ∧
    (∀ t, t ∈ rls db) ∧
    (∀ t c, grantees db t c = role_matrix t c) ∧
    (∀ p, p ∈ policies db → table p = admin_settings →
          role p = authenticated ∧ command p ≠ DELETE) ∧
    (∀ p, p ∈ policies db → role p = public → command p = SELECT).
Proof.
  intros db0.
  destruct (C10_role_matrix db0) as (db & Hrun & _ & Hrls & _ & Hexact).
  destruct Hexact as (Hcreated & Hgrants & Hadmin & Hpublic).
  { apply Forall_forall. apply (bool_decide_unpack _). vm_compute. exact I. }
  exists db. split_and!; assumption.
Defined.

End Policies.

(** * Further properties of the code *)

(** ** Which categories the tab renders *)

Section Rendered.
Context (items : list JewelryItem) (cats : list Category).
Context (expanded : gset string).

#[local] Abbreviation CategoryCard := (CategoryCard items cats expanded).
#[local] Abbreviation shown := (shown cats expanded).
#[local] Abbreviation render := (render items cats expanded).
#[local] Abbreviation trail := (trail cats).
#[local] Abbreviation is_open := (λ a : Category, Category.id a ∈ expanded).

Lemma shown_expanded s c : s ∈ shown c → Category.id c ∈ expanded.
Proof. unfold shown. case_bool_decide; [done|by intros ?%elem_of_nil]. Qed.

Lemma shown_intro s c :
  s ∈ cats → Category.parent_id s = Some (Category.id c) →
  Category.id c ∈ expanded → s ∈ shown c.
Proof.
  intros Hs Hpar Hc. unfold shown. rewrite bool_decide_eq_true_2 by done.
  by apply elem_of_getSubcategories.
Qed.

(** Every card of a tree was made by the component from its category. *)
Lemma subcards_is_card fuel c b k k' :
  CategoryCard fuel c b = Some k → k' ∈ subcards k →
  ∃ fuel' b', CategoryCard fuel' (card_category k') b' = Some k'.
Proof.
  revert c b k. induction fuel as [|fuel IH]; intros c b k Hk; [done|].
  pose proof Hk as Hk0.
  apply CategoryCard_inv in Hk as (fuel' & [= <-] & Hc & _ & Hkids).
  destruct k as [c' ? ? ? ? ? ? kids]; simpl in *; subst c'.
  rewrite elem_of_cons. intros [->|(kid & Hx & Hkid)%list_elem_of_bind].
  - by exists (S fuel), b.
  - destruct (Forall2_elem_of_r _ _ _ _ Hkids Hkid) as (s & Hs & Hcard).
    by eapply IH.
Qed.

Lemma render_is_card fuel v k :
  render fuel = Some v → k ∈ view_cards v ≫= subcards →
  ∃ fuel' b', CategoryCard fuel' (card_category k) b' = Some k.
Proof.
  intros Hv%render_inv (k0 & Hk & Hk0)%list_elem_of_bind.
  destruct (Forall2_elem_of_r _ _ _ _ Hv Hk0) as (r & Hr & Hcard).
  by eapply subcards_is_card.
Qed.

Lemma rendered_open_trail fuel c t b k x :
  CategoryCard fuel c b = Some k → trail (c :: t) → Forall is_open t →
  x ∈ rendered k →
  ∃ u, trail (x :: u) ∧ Forall is_open u.
Proof.
  revert c t b k x. induction fuel as [|fuel IH]; intros c t b k x Hk Ht Hopen; [done|].
  apply CategoryCard_inv in Hk as (fuel' & [= <-] & Hc & _ & Hkids).
  destruct k as [c' ? ? ? ? ? ? kids]; simpl in *; subst c'.
  rewrite elem_of_cons. intros [->|(kid & Hx & Hkid)%list_elem_of_bind].
  { by exists t. }
  destruct (Forall2_elem_of_r _ _ _ _ Hkids Hkid) as (s & Hs & Hcard).
  apply (IH s (c :: t) true kid x Hcard); [|constructor|]; try done.
  - apply elem_of_shown in Hs as [? ?]. by constructor.
  - by eapply shown_expanded.
Qed.

Lemma open_trail_card fuel v x t :
  render fuel = Some v → trail (x :: t) → Forall is_open t →
  ∃ k, k ∈ view_cards v ≫= subcards ∧ card_category k = x.
Proof.
  intros Hv Ht. remember (x :: t) as l eqn:Hl. revert x t Hl.
  induction Ht as [r Hr Hrtop|s p t' Ht' IH Hs Hpar]; intros x t [= -> <-] Hopen.
  - assert (x ∈ card_category <$> view_cards v) as (k & -> & Hk)%list_elem_of_fmap.
    { erewrite render_top by done. by apply elem_of_topLevelCategories. }
    exists k. split; [|done]. apply list_elem_of_bind.
    exists k. split; [apply subcards_self|done].
  - apply Forall_cons in Hopen as [Hp Hopen].
    destruct (IH p t' eq_refl Hopen) as (kp & Hkp & <-).
    assert (x ∈ card_category <$> card_children kp)
      as (kid & -> & Hkid)%list_elem_of_fmap.
    { erewrite render_children by done. by apply shown_intro. }
    exists kid. split; [|done].
    apply list_elem_of_bind in Hkp as (k0 & Hkp & Hk0).
    apply list_elem_of_bind. exists k0. split; [|done].
    eapply subcards_trans; [done|]. by apply subcards_child.
Qed.


End Rendered.


(** X2.  Every rendered category is a listed one, and it is top-level or
    the child of a listed category that is itself rendered and expanded.
    So a category whose [parent_id] is not empty and is the id of no listed
    category is never rendered. *)
Theorem X2_rendered_top_or_child
    (items : list JewelryItem) (cats : list Category) (expanded : gset string)
    (fuel : nat) (v : View) :
  render items cats expanded fuel = Some v →
  (∀ x, x ∈ rendered_all (view_cards v) →
     x ∈ cats ∧
     (truthy (Category.parent_id x) = false ∨
      ∃ p, p ∈ cats ∧ p ∈ rendered_all (view_cards v) ∧
           Category.id p ∈ expanded ∧
           Category.parent_id x = Some (Category.id p))) ∧
  (∀ x, truthy (Category.parent_id x) = true →
     (∀ p, p ∈ cats → Category.parent_id x ≠ Some (Category.id p)) →
     x ∉ rendered_all (view_cards v)).
Proof.
  intros Hv.
  assert (∀ x, x ∈ rendered_all (view_cards v) →
     x ∈ cats ∧
     (truthy (Category.parent_id x) = false ∨
      ∃ p, p ∈ cats ∧ p ∈ rendered_all (view_cards v) ∧
           Category.id p ∈ expanded ∧
           Category.parent_id x = Some (Category.id p))) as Hall.
  { intros x (k & Hx & Hk)%list_elem_of_bind.
    pose proof (render_inv _ _ _ _ _ Hv) as Hcards.
    destruct (Forall2_elem_of_r _ _ _ _ Hcards Hk) as (r & Hr & Hcard).
    destruct (rendered_open_trail items cats expanded _ r [] false k x Hcard)
      as (u & Hu & Hopen); [|done..|].
    { apply elem_of_topLevelCategories in Hr as [? ?]. by constructor. }
    inversion Hu as [? Hxin Hxtop|? p t Ht Hxin Hpar]; subst; [by auto|].
    split; [done|]. right. exists p.
    apply Forall_cons in Hopen as [Hp Hopen]. split_and!; [|..|done|done].
    - eapply (trail_elem cats (p :: t)); [done|left].
    - destruct (open_trail_card items cats expanded fuel v p t Hv Ht Hopen)
        as (kp & Hkp & <-).
      rewrite rendered_all_subcards. by apply list_elem_of_fmap_2. }
  split; [done|]. intros x Htruthy Horphan Hx.
  destruct (Hall x Hx) as [_ [Htop|(p & Hp & _ & _ & Hpar)]].
  - congruence.
  - by apply (Horphan p).
Qed.

Lemma X2_rendered_top_or_child_witness :
  let orphan := Category.mk "c9" "Lost" None None (Some "gone") in
  let cats := [Sample.rings; Sample.heavy; orphan] in
  ∃ v, render Sample.items cats {["c1"; "gone"]} 3 = Some v ∧
       (orphan ∉ rendered_all (view_cards v)) ∧
       (Sample.heavy ∈ rendered_all (view_cards v)).
Proof.
  eexists. split; [vm_compute; reflexivity|]. split.
  - apply (X2_rendered_top_or_child Sample.items
             [Sample.rings; Sample.heavy;
              Category.mk "c9" "Lost" None None (Some "gone")]
             {["c1"; "gone"]} 3); [vm_compute; reflexivity|reflexivity|].
    apply Forall_forall. apply (bool_decide_unpack _). vm_compute. exact I.
  - right. left.
Defined.

(** X3.  The "No categories found" panel is shown exactly when no card is
    rendered, that is, exactly when every listed category has a non-empty
    [parent_id]: also for a list that is not empty. *)
Theorem X3_empty_panel
    (items : list JewelryItem) (cats : list Category) (expanded : gset string)
    (fuel : nat) (v : View) :
  render items cats expanded fuel = Some v →
  (view_empty v = true ↔ view_cards v = []) ∧
  (view_empty v = true ↔
   ∀ c, c ∈ cats → truthy (Category.parent_id c) = true).
Proof.
  intros Hv. pose proof (render_top _ _ _ _ _ Hv) as Htop.
  assert (view_empty v = bool_decide (length (topLevelCategories cats) = 0))
    as ->.
  { unfold render in Hv.
    destruct (mapM _ (topLevelCategories cats)); by simplify_eq/=. }
  rewrite bool_decide_eq_true, length_zero_iff_nil, <-Htop. split.
  - split; [apply fmap_nil_inv|by intros ->].
  - rewrite Htop. split.
    + intros Hnil c Hc. apply not_false_iff_true. intros Hfalse.
      eapply (filter_nil_not_elem_of _ _ c Hnil); done.
    + intros Hall. apply elem_of_nil_inv.
      intros c [Hc Hfalse]%elem_of_topLevelCategories.
      rewrite (Hall c Hc) in Hfalse. done.
Qed.

Lemma X3_empty_panel_witness :
  ∃ v, render Sample.items [Sample.heavy; Sample.antique] ∅ 1 = Some v ∧
       view_empty v = true ∧ view_cards v = [].
Proof.
  eexists. split; [vm_compute; reflexivity|].
  destruct (X3_empty_panel Sample.items [Sample.heavy; Sample.antique] ∅ 1
              (mkView [] true)) as [Hcards Hall]; [vm_compute; reflexivity|].
  split; [|reflexivity].
  apply Hall. apply Forall_forall. apply (bool_decide_unpack _).
  vm_compute. exact I.
Defined.

(** X4.  In every rendered tab the top-level cards are not marked as
    subcategories and every nested card is; the subcategory counter of a
    card is the number of listed categories that name its category as
    parent; and a card has as many nested cards as its counter says when it
    is expanded, and none when it is collapsed. *)
Theorem X4_card_counters
    (items : list JewelryItem) (cats : list Category) (expanded : gset string)
    (fuel : nat) (v : View) :
  render items cats expanded fuel = Some v →
  (∀ k, k ∈ view_cards v → card_isSubcategory k = false) ∧
  (∀ k, k ∈ view_cards v ≫= subcards →
     card_isExpanded k = bool_decide (Category.id (card_category k) ∈ expanded) ∧
     card_subcategoryCount k =
       length (filter (λ cat, Category.parent_id cat =
                              Some (Category.id (card_category k))) cats) ∧
     length (card_children k) =
       (if card_isExpanded k then card_subcategoryCount k else 0) ∧
     (∀ kid, kid ∈ card_children k → card_isSubcategory kid = true)).
Proof.
  intros Hv. split.
  - intros k Hk. apply render_inv in Hv.
    destruct (Forall2_elem_of_r _ _ _ _ Hv Hk) as (r & Hr & Hcard).
    by apply CategoryCard_inv in Hcard as (_ & _ & _ & ? & _).
  - intros k Hk.
    destruct (render_is_card _ _ _ _ _ _ Hv Hk) as (fuel' & b & Hcard).
    pose proof (CategoryCard_fields _ _ _ _ _ _ _ Hcard)
      as (_ & _ & _ & Hcount & Hexp).
    apply CategoryCard_inv in Hcard as (fuel'' & _ & _ & _ & Hkids).
    split_and!; [done..| |].
    + rewrite <-(Forall2_length _ _ _ Hkids), Hexp, Hcount. unfold shown.
      by destruct (bool_decide _).
    + intros kid Hkid.
      destruct (Forall2_elem_of_r _ _ _ _ Hkids Hkid) as (s & _ & Hs).
      by apply CategoryCard_inv in Hs as (_ & _ & _ & ? & _).
Qed.

Lemma X4_card_counters_witness :
  ∃ v, render Sample.items [Sample.rings; Sample.heavy; Sample.antique]
         {["c1"]} 3 = Some v ∧
       (∀ k, k ∈ view_cards v → card_isSubcategory k = false).
Proof.
  eexists. split; [vm_compute; reflexivity|].
  apply (X4_card_counters Sample.items
           [Sample.rings; Sample.heavy; Sample.antique] {["c1"]} 3).
  vm_compute. reflexivity.
Defined.

(** ** The handlers beyond the guard *)

(** The outcome of a delete request, case by case. *)
Lemma handleDeleteCategory_eval (items : list JewelryItem) (st : State)
    (confirmed : bool) (write : WriteReply) (load : SelectReply)
    (id categoryName : string) :
  let n :=
    length (filter (λ item, JewelryItem.category item = categoryName) items) in
  let m :=
    length (filter (λ cat, Category.parent_id cat = Some id) (categories st)) in
  handleDeleteCategory items confirmed write load id categoryName st =
    if bool_decide (0 < n) then
      (Done (), st, [Alert (itemsAlert categoryName n)])
    else if bool_decide (0 < m) then
      (Done (), st, [Alert (subcategoriesAlert categoryName m)])
    else if confirmed then
      match write, load with
      | WriteOk, SelectData (Some data) =>
          (Done (),
           mkState data (showAddCategoryForm st) (editingCategory st)
             (expandedCategories st) (categoryFormData st),
           [Confirm (confirmQuestion categoryName); RemoteDelete id;
            RemoteSelect; OnCategoriesChange])
      | WriteOk, SelectData None =>
          (Done (), st,
           [Confirm (confirmQuestion categoryName); RemoteDelete id; RemoteSelect])
      | WriteOk, SelectRejected =>
          (Done (), st,
           [Confirm (confirmQuestion categoryName); RemoteDelete id; RemoteSelect;
            ConsoleError "Error loading categories:"])
      | _, _ =>
          (Done (), st,
           [Confirm (confirmQuestion categoryName); RemoteDelete id;
            ConsoleError "Error deleting category:"; Alert deleteErrorAlert])
      end
    else (Done (), st, [Confirm (confirmQuestion categoryName)]).
Proof.
  intros n m. unfold handleDeleteCategory, bind, get. simpl. fold n m.
  destruct (bool_decide (0 < n)); [done|].
  destruct (bool_decide (0 < m)); [done|].
  destruct confirmed; [|done].
  by destruct write, load as [[data|]|].
Qed.

(** X5.  The counters a card displays are the ones the delete guard of its
    bin uses: with a positive item counter the request only shows the alert
    citing that counter, otherwise with a positive subcategory counter only
    the alert citing that one, and a remote call is issued exactly when both
    counters of the card are 0 and the confirmation is granted. *)
Theorem X5_card_counters_guard_delete
    (items : list JewelryItem) (st : State) (fuel : nat) (v : View) (k : Card)
    (confirmed : bool) (write : WriteReply) (load : SelectReply) :
  AdminCategoriesTab items fuel st = Some v →
  k ∈ view_cards v ≫= subcards →
  let c := card_category k in
  let run :=
    handleDeleteCategory items confirmed write load
      (Category.id c) (Category.name c) st in
  (0 < card_itemCount k →
     run = (Done (), st, [Alert (itemsAlert (Category.name c) (card_itemCount k))])) ∧
  (card_itemCount k = 0 → 0 < card_subcategoryCount k →
     run = (Done (), st,
            [Alert (subcategoriesAlert (Category.name c) (card_subcategoryCount k))])) ∧
  (Exists (λ e, is_remote e = true) run.2 ↔
     card_itemCount k = 0 ∧ card_subcategoryCount k = 0 ∧ confirmed = true).
Proof.
  intros Hv Hk c run. unfold AdminCategoriesTab in Hv.
  destruct (render_is_card _ _ _ _ _ _ Hv Hk) as (fuel' & b & Hcard).
  apply CategoryCard_fields in Hcard as (_ & Hitems & _ & Hsubs & _).
  fold c in Hitems, Hsubs. subst run. rewrite handleDeleteCategory_eval.
  unfold getItemCount in Hitems. unfold getSubcategories in Hsubs.
  rewrite <-Hitems, <-Hsubs.
  destruct (decide (0 < card_itemCount k)) as [Hn|Hn].
  { rewrite bool_decide_eq_true_2 by done. cbn [snd]. split_and!; [done|lia|].
    rewrite Exists_cons, Exists_nil. simpl. split; [intros [?|[]]; done|lia]. }
  rewrite bool_decide_eq_false_2 by done.
  destruct (decide (0 < card_subcategoryCount k)) as [Hm|Hm].
  { rewrite bool_decide_eq_true_2 by done. cbn [snd]. split_and!; [lia|done|].
    rewrite Exists_cons, Exists_nil. simpl. split; [intros [?|[]]; done|lia]. }
  rewrite bool_decide_eq_false_2 by done. split_and!; [lia..|].
  destruct confirmed.
  - split; [intros _; split_and!; [lia|lia|done]|]. intros _.
    destruct write, load as [[data|]|]; cbn [snd];
      apply Exists_cons; right; apply Exists_cons; by left.
  - cbn [snd]. rewrite Exists_cons, Exists_nil. simpl.
    split; [intros [?|[]]; done|intros (_ & _ & ?); done].
Qed.

Lemma X5_card_counters_guard_delete_witness :
  let st := mkState [Sample.rings; Sample.heavy] false None ∅ FormData.empty in
  let k := mkCard Sample.rings false "a.jpg" 2 3 1 false [] in
  AdminCategoriesTab Sample.items 2 st = Some (mkView [k] false) ∧
  handleDeleteCategory Sample.items true WriteOk (SelectData None)
    "c1" "Rings" st = (Done (), st, [Alert (itemsAlert "Rings" 2)]).
Proof.
  intros st k. split; [reflexivity|].
  apply (X5_card_counters_guard_delete Sample.items st 2 (mkView [k] false) k
           true WriteOk (SelectData None)).
  - reflexivity.
  - left.
  - vm_compute. lia.
Defined.

(** X6.  A delete request never throws and never touches the form, the
    editing selection or the expanded set.  It replaces the category list
    only by the rows of a reload, which happens only after a confirmed
    delete that the backend accepted; and it shows the delete error alert
    exactly when a confirmed delete that passed the guard was refused or
    rejected by the backend, so a failed reload after a successful delete is
    silent and leaves the old list on display. *)
Theorem X6_delete_frame (items : list JewelryItem) (st : State)
    (confirmed : bool) (write : WriteReply) (load : SelectReply)
    (id categoryName : string) :
  let n :=
    length (filter (λ item, JewelryItem.category item = categoryName) items) in
  let m :=
    length (filter (λ cat, Category.parent_id cat = Some id) (categories st)) in
  let run := handleDeleteCategory items confirmed write load id categoryName st in
  run.1.1 = Done () ∧
  showAddCategoryForm run.1.2 = showAddCategoryForm st ∧
  editingCategory run.1.2 = editingCategory st ∧
  categoryFormData run.1.2 = categoryFormData st ∧
  expandedCategories run.1.2 = expandedCategories st ∧
  (categories run.1.2 = categories st ∨
   ∃ data, load = SelectData (Some data) ∧ categories run.1.2 = data ∧
           n = 0 ∧ m = 0 ∧ confirmed = true ∧ write = WriteOk) ∧
  (Alert deleteErrorAlert ∈ run.2 ↔
     n = 0 ∧ m = 0 ∧ confirmed = true ∧ write ≠ WriteOk).
Proof.
  intros n m run. subst run. rewrite handleDeleteCategory_eval. fold n m.
  assert (∀ msg, Alert (itemsAlert categoryName msg) ≠ Alert deleteErrorAlert)
    as Hitems.
  { by intros msg [=]. }
  assert (∀ msg, Alert (subcategoriesAlert categoryName msg) ≠ Alert deleteErrorAlert)
    as Hsubs.
  { by intros msg [=]. }
  destruct (decide (0 < n)) as [Hn|Hn].
  { rewrite bool_decide_eq_true_2 by done. simpl.
    split_and!; [done..|by left|].
    rewrite list_elem_of_singleton. split; [intros Heq|lia].
    by destruct (Hitems n). }
  rewrite bool_decide_eq_false_2 by done.
  destruct (decide (0 < m)) as [Hm|Hm].
  { rewrite bool_decide_eq_true_2 by done. simpl.
    split_and!; [done..|by left|].
    rewrite list_elem_of_singleton. split; [intros Heq|lia].
    by destruct (Hsubs m). }
  rewrite bool_decide_eq_false_2 by done.
  destruct confirmed.
  - destruct write, load as [[data|]|]; simpl;
      (split_and!; [done..| |]);
      try (by left);
      try (right; exists data; split_and!; [done|done|lia|lia|done|done]);
      rewrite !elem_of_cons, elem_of_nil;
      (split; [intros Hin|intros (_ & _ & _ & Hw)]);
      try done; try (split_and!; [lia|lia|done|done]);
      try (by repeat destruct Hin as [Hin|Hin]);
      try (by auto 10).
  - simpl. split_and!; [done..|by left|].
    rewrite list_elem_of_singleton. split; [done|]. by intros (_ & _ & ? & _).
Qed.

(** X7.  Loading the categories never throws, whatever the backend does:
    it always asks for the list first, changes nothing but the list, and
    replaces the list and notifies the parent component exactly when the
    backend returns rows (an empty array of rows empties the list); a null
    answer is ignored and a rejection is only logged, and no alert is shown
    in any case. *)
Theorem X7_loadCategories (reply : SelectReply) (st : State) :
  let run := loadCategories reply st in
  run.1.1 = Done () ∧
  head run.2 = Some RemoteSelect ∧
  showAddCategoryForm run.1.2 = showAddCategoryForm st ∧
  editingCategory run.1.2 = editingCategory st ∧
  categoryFormData run.1.2 = categoryFormData st ∧
  expandedCategories run.1.2 = expandedCategories st ∧
  categories run.1.2 =
    match reply with
    | SelectData (Some data) => data
    | _ => categories st
    end ∧
  (OnCategoriesChange ∈ run.2 ↔ ∃ data, reply = SelectData (Some data)) ∧
  (ConsoleError "Error loading categories:" ∈ run.2 ↔ reply = SelectRejected) ∧
  Forall (λ e, match e with Alert _ | Confirm _ => False | _ => True end) run.2.
Proof.
  destruct reply as [[data|]|]; simpl; split_and!; try done;
    rewrite ?elem_of_cons, ?elem_of_nil;
    try (split; [intros Hin|intros Hex]);
    try (by repeat constructor);
    try (by destruct Hex);
    try (by repeat destruct Hin as [Hin|Hin]);
    try (by eexists); auto.
Qed.

(** The first effect of a submission is its write. *)
Lemma handleCategorySubmit_write (st : State) (write : WriteReply)
    (load : SelectReply) :
  ∃ rest,
    (handleCategorySubmit write load st).2 =
      match editingCategory st with
      | Some editing =>
          RemoteUpdate (submitData (categoryFormData st)) (Category.id editing)
      | None => RemoteInsert [submitData (categoryFormData st)]
      end :: rest.
Proof.
  unfold handleCategorySubmit, bind, get, try_catch.
  generalize (submitData (categoryFormData st)). intros row.
  destruct (editingCategory st), write, load as [[data|]|]; simpl; by eexists.
Qed.

(** X8.  Opening a category for editing and submitting the form as it is
    sends an update for the id of that category whose row has its name, its
    description and its image_url with the empty string in place of an
    absent one, and its parent_id with null in place of an absent or empty
    one; the modal is then titled for editing and shows those values. *)
Theorem X8_edit_round_trip (c : Category) (st : State)
    (write : WriteReply) (load : SelectReply) :
  let st1 := (startEditCategory c st).1.2 in
  let row :=
    SubmitData.mk (Category.name c)
      (default "" (Category.description c))
      (default "" (Category.image_url c))
      (if truthy (Category.parent_id c) then Category.parent_id c else None) in
  (startEditCategory c st).2 = [] ∧
  categories st1 = categories st ∧
  expandedCategories st1 = expandedCategories st ∧
  editingCategory st1 = Some c ∧
  (∃ fv, formModal st1 = Some fv ∧ form_title fv = "Edit Category" ∧
         form_submit fv = "Update Category" ∧
         form_values fv =
           FormData.mk (Category.name c) (default "" (Category.description c))
             (default "" (Category.image_url c))
             (default "" (Category.parent_id c))) ∧
  ∃ rest,
    (handleCategorySubmit write load st1).2 =
      RemoteUpdate row (Category.id c) :: rest.
Proof.
  intros st1 row.
  assert (∀ o : option string, or_else o "" = default "" o) as Hor.
  { intros [x|]; unfold or_else; simpl; [|done].
    by destruct (String.eqb_spec x "") as [->|]. }
  assert (categoryFormData st1 =
            FormData.mk (Category.name c) (default "" (Category.description c))
              (default "" (Category.image_url c))
              (default "" (Category.parent_id c))) as Hform.
  { change (categoryFormData st1) with
      (FormData.mk (Category.name c) (or_else (Category.description c) "")
         (or_else (Category.image_url c) "")
         (or_else (Category.parent_id c) "")).
    by rewrite !Hor. }
  split_and!; try done.
  - exists (mkFormView "Edit Category"
              (("", "None (Top-level category)") ::
                 map (λ cat, (Category.id cat, Category.name cat))
                   (topLevelCategories (categories st)))
              (categoryFormData st1) "Update Category").
    by rewrite <-Hform.
  - destruct (handleCategorySubmit_write st1 write load) as [rest ->].
    exists rest. change (editingCategory st1) with (Some c). cbn match.
    f_equal. f_equal. rewrite Hform. unfold submitData, row. simpl. f_equal.
    by destruct (Category.parent_id c).
Qed.

(** ** The form across the events of the tab *)

Section FormStates.
Context (items : list JewelryItem).

(** Whenever the modal is hidden nothing is selected for editing and the
    fields are empty. *)
#[local] Abbreviation blank_when_closed := (λ st : State,
  showAddCategoryForm st = false →
  editingCategory st = None ∧ categoryFormData st = FormData.empty).

Lemma ui_run_invariant (P : State → Prop) actions st0 st :
  P st0 →
  (∀ a st st', P st → ui_step items a st = Some st' → P st') →
  ui_run items actions st0 = Some st → P st.
Proof.
  intros H0 Hstep. revert st0 H0.
  induction actions as [|a actions IH]; intros st0 H0; simpl.
  - by intros [= <-].
  - destruct (ui_step items a st0) as [st1|] eqn:Ha; simpl; [|done].
    apply IH. by eapply Hstep.
Qed.

Lemma ui_step_blank_when_closed a st st' :
  blank_when_closed st → ui_step items a st = Some st' → blank_when_closed st'.
Proof.
  unfold ui_step. intros Hst. destruct (available a st) eqn:Hav; [|done].
  intros [= <-]. destruct a as [load| |c|c confirmed write load|c| |f value|write load].
  - by destruct load as [[data|]|].
  - done.
  - done.
  - simpl. rewrite handleDeleteCategory_eval.
    repeat case_bool_decide; try done.
    by destruct confirmed, write, load as [[data|]|].
  - done.
  - done.
  - simpl in *. by rewrite Hav.
  - simpl in Hav. apply andb_prop in Hav as [Hshow _].
    unfold handler, handleCategorySubmit, bind, get, try_catch.
    generalize (submitData (categoryFormData st)). intros row.
    destruct (editingCategory st), write, load as [[data|]|]; simpl;
      first [done | by rewrite Hshow].
Qed.

(** Typing into the open form changes the fields one after the other and
    nothing else. *)
Lemma ui_run_changes (changes : list (Field * string)) st :
  showAddCategoryForm st = true →
  ui_run items (map (λ fv, Change fv.1 fv.2) changes) st =
    Some (mkState (categories st) true (editingCategory st)
            (expandedCategories st)
            (foldl (λ d fv, setField fv.1 fv.2 d) (categoryFormData st) changes)).
Proof.
  revert st. induction changes as [|[f value] changes IH]; intros st Hshow.
  - simpl. destruct st; simpl in *. by subst.
  - simpl. unfold ui_step at 1. simpl. rewrite Hshow. simpl.
    by rewrite IH.
Qed.

(** X9.  In every state the tab reaches from its initial state, a hidden
    modal means that no category is selected for editing and the fields are
    empty.  So "Add Category" on a closed form always opens a blank create
    form: after any typing the list, the selection and the expanded set are
    as before, the fields hold exactly what was typed, and a submission
    sends an insert of those fields. *)
Theorem X9_closed_form_is_blank (actions : list Action) (st : State) :
  ui_run items actions initialState = Some st →
  (showAddCategoryForm st = false →
     editingCategory st = None ∧ categoryFormData st = FormData.empty) ∧
  (showAddCategoryForm st = false →
   ∀ changes : list (Field * string),
     let typed := foldl (λ d fv, setField fv.1 fv.2 d) FormData.empty changes in
     let st1 := mkState (categories st) true None (expandedCategories st) typed in
     ui_run items (ClickAdd :: map (λ fv, Change fv.1 fv.2) changes) st = Some st1 ∧
     ∀ write load, ∃ rest,
       (handleCategorySubmit write load st1).2 =
         RemoteInsert [submitData typed] :: rest).
Proof.
  intros Hrun.
  assert (blank_when_closed st) as Hblank.
  { apply (ui_run_invariant blank_when_closed actions initialState st);
      [done| |done].
    intros a st1 st2. apply ui_step_blank_when_closed. }
  split; [done|]. intros Hclosed changes typed st1.
  destruct (Hblank Hclosed) as [Hedit Hform]. split.
  - assert (ui_step items ClickAdd st =
              Some (mkState (categories st) true (editingCategory st)
                      (expandedCategories st) (categoryFormData st))) as Hadd
      by done.
    cbn [ui_run]. rewrite Hadd. cbn [mbind option_bind].
    rewrite ui_run_changes by done. simpl. by rewrite Hedit, Hform.
  - intros write load.
    by destruct (handleCategorySubmit_write st1 write load) as [rest ->]; exists rest.
Qed.

End FormStates.

Lemma X9_closed_form_is_blank_witness :
  let actions :=
    [EffectMount (SelectData (Some [Sample.rings; Sample.heavy]));
     ClickEdit Sample.heavy; Change FName "Heavy"; Submit WriteOk (SelectData None)] in
  let st := mkState [Sample.rings; Sample.heavy] false None ∅ FormData.empty in
  ui_run Sample.items actions initialState = Some st ∧
  editingCategory st = None ∧ categoryFormData st = FormData.empty.
Proof.
  intros actions st. split; [reflexivity|].
  apply (X9_closed_form_is_blank Sample.items actions st); reflexivity.
Defined.

(** X10.  While the modal is shown, whatever option of the parent select is
    chosen, the row a submission sends has a null [parent_id] or the id of
    a listed top-level category. *)
Theorem X10_parent_options (st : State) (fv : FormView) (value label : string) :
  formModal st = Some fv →
  (value, label) ∈ form_options fv →
  let row := submitData (setField FParentId value (categoryFormData st)) in
  SubmitData.parent_id row = None ∨
  ∃ c, c ∈ categories st ∧ truthy (Category.parent_id c) = false ∧
       SubmitData.parent_id row = Some (Category.id c).
Proof.
  unfold formModal. destruct (showAddCategoryForm st); [|done].
  intros [= <-]. simpl.
  rewrite elem_of_cons, list_elem_of_In, in_map_iff.
  intros [[= -> ->]|(c & [= <- <-] & Hc)]; [by left|].
  apply list_elem_of_In, elem_of_topLevelCategories in Hc as [Hc Htop].
  destruct (String.eqb (Category.id c) ""); simpl; [by left|].
  right. by exists c.
Qed.

Lemma X10_parent_options_witness :
  let st := mkState [Sample.rings; Sample.heavy] true None ∅ FormData.empty in
  let row := submitData (setField FParentId "c1" (categoryFormData st)) in
  SubmitData.parent_id row = None ∨
  ∃ c, c ∈ categories st ∧ truthy (Category.parent_id c) = false ∧
       SubmitData.parent_id row = Some (Category.id c).
Proof.
  intros st.
  apply (X10_parent_options st
           (mkFormView "Add New Category"
              [("", "None (Top-level category)"); ("c1", "Rings")]
              FormData.empty "Add Category") "c1" "Rings").
  - reflexivity.
  - right. left.
Defined.

(** X11.  The edit form of a listed top-level category with a non-empty id
    offers that very category as parent, and choosing it and submitting
    sends an update that makes the category its own parent. *)
Theorem X11_self_parent_offered (st : State) (c : Category)
    (write : WriteReply) (load : SelectReply) :
  showAddCategoryForm st = true →
  editingCategory st = Some c →
  c ∈ categories st →
  truthy (Category.parent_id c) = false →
  Category.id c ≠ "" →
  (∃ fv, formModal st = Some fv ∧
         (Category.id c, Category.name c) ∈ form_options fv) ∧
  ∃ row rest,
    (handleCategorySubmit write load
       (handleChange FParentId (Category.id c) st).1.2).2 =
      RemoteUpdate row (Category.id c) :: rest ∧
    SubmitData.parent_id row = Some (Category.id c).
Proof.
  intros Hshow Hedit Hc Htop Hid. split.
  - unfold formModal. rewrite Hshow. eexists. split; [reflexivity|]. simpl.
    right. apply list_elem_of_In, in_map_iff. exists c. split; [done|].
    by apply list_elem_of_In, elem_of_topLevelCategories.
  - destruct (handleCategorySubmit_write
                (handleChange FParentId (Category.id c) st).1.2 write load)
      as [rest ->].
    change (editingCategory (handleChange FParentId (Category.id c) st).1.2)
      with (editingCategory st).
    rewrite Hedit. eexists _, rest. split; [reflexivity|]. simpl.
    by rewrite (proj2 (String.eqb_neq _ _) Hid).
Qed.

Lemma X11_self_parent_offered_witness :
  let st :=
    mkState [Sample.rings; Sample.heavy] true (Some Sample.rings) ∅
      (FormData.mk "Rings" "All rings" "a.jpg, b.jpg,  c.jpg" "") in
  ∃ row rest,
    (handleCategorySubmit WriteOk (SelectData None)
       (handleChange FParentId "c1" st).1.2).2 = RemoteUpdate row "c1" :: rest ∧
    SubmitData.parent_id row = Some "c1".
Proof.
  intros st.
  apply (X11_self_parent_offered st Sample.rings WriteOk (SelectData None));
    [reflexivity|reflexivity|left|reflexivity|discriminate].
Defined.

(** X12.  Toggling a card flips the membership of its id in the expanded
    set and of no other id, emits nothing and changes nothing else; toggling
    it twice restores the set. *)
Theorem X12_toggleExpanded (categoryId : string) (st : State) :
  let run := toggleExpanded categoryId st in
  let st1 := run.1.2 in
  run.1.1 = Done () ∧ run.2 = [] ∧
  categories st1 = categories st ∧
  showAddCategoryForm st1 = showAddCategoryForm st ∧
  editingCategory st1 = editingCategory st ∧
  categoryFormData st1 = categoryFormData st ∧
  (categoryId ∈ expandedCategories st1 ↔ categoryId ∉ expandedCategories st) ∧
  (∀ other, other ≠ categoryId →
     other ∈ expandedCategories st1 ↔ other ∈ expandedCategories st) ∧
  expandedCategories (toggleExpanded categoryId st1).1.2 = expandedCategories st.
Proof.
  simpl. split_and!; try done.
  - case_bool_decide; set_solver.
  - intros other Hother. case_bool_decide; set_solver.
  - repeat case_bool_decide; try set_solver.
    apply set_eq. intros x. destruct (decide (x = categoryId)); set_solver.
Qed.

(** ** The poller after its cleanup, and where its values come from *)

Section PollerMore.
Import GoldPrice.

(** X13.  Once the cleanup of the effect has run, and as long as the effect
    does not run again, the only events left are the settlements of fetches
    that were still pending, and none of them changes the price, the
    loading flag or the error: the interval never fires again. *)
Theorem X13_no_update_after_unmount (h0 h1 h' : Hook) (events : list Event) :
  step Unmount h0 = Some h1 →
  Forall (λ e, e ≠ Mount) events →
  run events h1 = Some h' →
  goldPrice h' = goldPrice h0 ∧ loading h' = loading h0 ∧ error h' = error h0 ∧
  mounted h' = false ∧ interval h' = false ∧
  pending h' + length events = pending h0 ∧
  Forall (λ e, e = Rejected ∨ ∃ price, e = Resolved price) events.
Proof.
  intros Hunmount Hevents Hrun.
  assert (goldPrice h1 = goldPrice h0 ∧ loading h1 = loading h0 ∧
          error h1 = error h0 ∧ pending h1 = pending h0 ∧
          mounted h1 = false ∧ interval h1 = false)
    as (<- & <- & <- & <- & Hm & Hi).
  { destruct h0 as [? ? ? [] ? ?]; simpl in Hunmount; by simplify_eq/=. }
  clear Hunmount. revert h1 Hm Hi Hrun.
  induction Hevents as [|e events He _ IH]; intros h1 Hm Hi; simpl.
  { intros [= <-]. split_and!; try done; lia. }
  destruct (step e h1) as [h2|] eqn:Hstep; simpl; [|done]. intros Hrun.
  assert (goldPrice h2 = goldPrice h1 ∧ loading h2 = loading h1 ∧
          error h2 = error h1 ∧ S (pending h2) = pending h1 ∧
          mounted h2 = false ∧ interval h2 = false ∧
          (e = Rejected ∨ ∃ price, e = Resolved price))
    as (<- & <- & <- & <- & Hm2 & Hi2 & Hsettle).
  { destruct h1 as [? ? ? m i n]; simpl in *; subst m i.
    destruct e; simpl in Hstep; try done;
      (case_bool_decide; [|done]); simplify_eq/=;
      (split_and!; [done|done|done|lia|done|done|eauto]). }
  destruct (IH h2 Hm2 Hi2 Hrun) as (? & ? & ? & ? & ? & ? & ?).
  split_and!; try done; first [lia|by constructor].
Qed.

Lemma X13_no_update_after_unmount_witness :
  let h0 := mkHook 5450 true None true true 1 in
  ∃ h1 h',
    step Unmount h0 = Some h1 ∧
    run [Rejected] h1 = Some h' ∧
    goldPrice h' = goldPrice h0 ∧ loading h' = loading h0 ∧ error h' = error h0.
Proof.
  intros h0. eexists _, _. split; [reflexivity|]. split; [reflexivity|].
  destruct (X13_no_update_after_unmount h0
              (mkHook 5450 true None false false 1)
              (mkHook 5450 true None false false 0) [Rejected])
    as (Hp & Hl & He & _); [reflexivity| |reflexivity|done].
  repeat constructor. discriminate.
Defined.

Lemma run_provenance events h0 h :
  run events h0 = Some h →
  (error h = error h0 ∨ error h = None ∨
   (error h = Some fetchError ∧ Rejected ∈ events)) ∧
  (goldPrice h = goldPrice h0 ∨
   ∃ price, Resolved price ∈ events ∧ goldPrice h = price).
Proof.
  revert h0. induction events as [|e events IH]; intros h0; simpl.
  { intros [= <-]. auto. }
  destruct (step e h0) as [h1|] eqn:Hstep; simpl; [|done]. intros Hrun.
  destruct (IH h1 Hrun) as [Herr Hprice].
  assert ((error h1 = error h0 ∨ error h1 = None ∨
           (error h1 = Some fetchError ∧ e = Rejected)) ∧
          (goldPrice h1 = goldPrice h0 ∨
           ∃ price, e = Resolved price ∧ goldPrice h1 = price))
    as [Herr1 Hprice1].
  { destruct e, h0 as [? ? ? [] [] ?]; simpl in Hstep;
      repeat case_match; simplify_eq/=; eauto 10. }
  split.
  - destruct Herr as [->|[->|[-> Hin]]].
    + destruct Herr1 as [->|[->|[-> ->]]]; [auto..|].
      right. right. split; [done|left].
    + auto.
    + right. right. split; [done|by right].
  - destruct Hprice as [->|(price & Hin & ->)].
    + destruct Hprice1 as [->|(price & -> & <-)]; [auto|].
      right. eexists. split; [left|done].
    + right. exists price. split; [by right|done].
Qed.

(** X14.  In every state the poller reaches, the error is null or the one
    fixed message, and it is not null only if some fetch was rejected; the
    price is the fallback 5450 or the value some fetch resolved with; and
    the interval is armed only while the hook is mounted. *)
Theorem X14_poller_values (events : list Event) (h : Hook) :
  run events init = Some h →
  (error h = None ∨ error h = Some "Failed to fetch gold price") ∧
  (error h ≠ None → Rejected ∈ events) ∧
  (goldPrice h = 5450%Z ∨ ∃ price, Resolved price ∈ events ∧ goldPrice h = price) ∧
  (interval h = true → mounted h = true).
Proof.
  intros Hrun. destruct (run_provenance _ _ _ Hrun) as [Herr Hprice].
  simpl in Herr, Hprice. split_and!.
  - destruct Herr as [?|[?|[? _]]]; auto.
  - intros Hne. by destruct Herr as [?|[?|[_ ?]]].
  - done.
  - by apply (interval_mounted events).
Qed.

Lemma X14_poller_values_witness :
  let events := [Mount; Rejected; Tick; Resolved 6100] in
  ∃ h, run events init = Some h ∧ error h = None ∧
       (goldPrice h = 5450%Z ∨
        ∃ price, Resolved price ∈ events ∧ goldPrice h = price).
Proof.
  intros events. eexists. split; [reflexivity|]. split; [reflexivity|].
  apply (X14_poller_values events). reflexivity.
Defined.

End PollerMore.

(** ** Running the migration again *)

Section PoliciesMore.
Import Sql.

#[local] Abbreviation enable := (λ (t : Table) (r : list Table),
  if bool_decide (t ∈ r) then r else t :: r).

(** The database the migration leaves. *)
Lemma run_migration db0 :
  Sql.run migration db0 =
    Some (mkDb (filter (λ p, (name p, table p) ∉ dropped) (policies db0) ++ created)
            (enable admin_settings
               (enable jewelry_items (enable categories (rls db0))))).
Proof.
  unfold migration.
  rewrite run_script_app, run_drops. cbn [mbind option_bind].
  rewrite run_script_app. cbn [Sql.run exec mbind option_bind policies rls].
  apply run_creates.
  - apply (bool_decide_unpack _). vm_compute. exact I.
  - intros p q [Hnot _]%list_elem_of_filter Hq Heq. apply Hnot. rewrite Heq.
    clear Heq. revert q Hq. apply Forall_forall.
    apply (bool_decide_unpack _). vm_compute. exact I.
Qed.

(** X15.  The migration can be run again: on the database it has just left
    it succeeds and leaves that very database, policies and row level
    security alike. *)
Theorem X15_migration_idempotent (db0 db : Db) :
  Sql.run migration db0 = Some db →
  Sql.run migration db = Some db.
Proof.
  rewrite run_migration. intros [= <-]. rewrite run_migration.
  cbn [policies rls]. f_equal. f_equal.
  - rewrite filter_app, list_filter_filter.
    assert (filter (λ p, (name p, table p) ∉ dropped) created = []) as ->
      by (vm_compute; reflexivity).
    rewrite app_nil_r. f_equal. apply list_filter_iff. tauto.
  - repeat case_bool_decide; try done;
      repeat match goal with
             | H : ¬ _ ∈ _ |- _ => destruct H
             end;
      repeat (first [by left | apply elem_of_cons; right]);
      set_solver.
Qed.

Lemma X15_migration_idempotent_witness :
  let db0 :=
    mkDb [mkPolicy "Categories are publicly readable" categories SELECT
            authenticated (Some TRUE) None;
          mkPolicy "Service role bypass" admin_settings DELETE authenticated
            (Some TRUE) None] [jewelry_items] in
  ∃ db, Sql.run migration db0 = Some db ∧ Sql.run migration db = Some db.
Proof.
  intros db0. eexists. split; [vm_compute; reflexivity|].
  eapply (X15_migration_idempotent db0). vm_compute. reflexivity.
Defined.

End PoliciesMore.

(** ** Image lists *)

Section Images.
Import JsString.

Lemma join_empty sep u l : join sep (u :: l) = "" → u = "".
Proof.
  destruct l as [|u' l]; simpl; [done|]. by destruct u.
Qed.

Lemma filter_all {A} (P : A → Prop) `{!∀ x, Decision (P x)} (l : list A) :
  (∀ x, x ∈ l → P x) → filter P l = l.
Proof.
  induction l as [|a l IH]; intros Hall; [done|].
  rewrite filter_cons, decide_True by (apply Hall; left).
  f_equal. apply IH. intros x Hx. apply Hall. by right.
Qed.

(** X16.  When [image_url] lists one or more references separated by
    commas, each free of commas and not blank (blanks around a reference
    are allowed), the image count is the number of references and the
    cover image is the first reference, trimmed. *)
Theorem X16_image_list (c : Category) (first : string) (others : list string) :
  Forall (λ u, mem "," u = false ∧ blank u = false) (first :: others) →
  Category.image_url c = Some (join "," (first :: others)) →
  getImageCount c = S (length others) ∧ coverImage c = trim first.
Proof.
  intros Hurls Hurl.
  assert (split "," (join "," (first :: others)) = first :: others) as Hsplit.
  { apply split_join; [done|]. eapply Forall_impl; [done|]. by intros u [? _]. }
  assert (∀ u, u ∈ first :: others → trim u ≠ "") as Htrim.
  { intros u Hu Hempty%trim_empty. rewrite Forall_forall in Hurls.
    destruct (Hurls u Hu) as [_ Hblank]. congruence. }
  assert (join "," (first :: others) ≠ "") as Hne.
  { intros Hempty%join_empty. apply (Htrim first); [left|]. by rewrite Hempty. }
  unfold getImageCount, coverImage, or_else. rewrite Hurl. cbn [truthy default].
  rewrite (proj2 (String.eqb_neq _ _) Hne).
  cbn [negb mbind option_bind fmap option_fmap option_map].
  change (id (join "," (first :: others))) with (join "," (first :: others)).
  rewrite !Hsplit. split.
  - rewrite (length_filter_fmap trim (λ u, u ≠ "")).
    change (S (length others)) with (length (first :: others)). f_equal.
    by apply filter_all.
  - cbn [head]. cbn [fmap option_fmap option_map truthy default].
    by rewrite (proj2 (String.eqb_neq _ _) (Htrim first ltac:(left))).
Qed.

Lemma X16_image_list_witness :
  getImageCount Sample.rings = 3 ∧ coverImage Sample.rings = trim "a.jpg".
Proof.
  apply (X16_image_list Sample.rings "a.jpg" [" b.jpg"; "  c.jpg"]).
  - repeat constructor.
  - reflexivity.
Defined.

(** X17.  The picture of a card is never the empty string and never starts
    or ends with white space; and a category with image count 0 gets the
    fallback picture. *)
Theorem X17_cover_never_empty (c : Category) :
  coverImage c ≠ "" ∧
  (∀ a, JsString.first (coverImage c) = Some a → isWhiteSpace a = false) ∧
  (∀ a, JsString.last (coverImage c) = Some a → isWhiteSpace a = false) ∧
  (getImageCount c = 0 → coverImage c = fallbackImage).
Proof.
  assert (∀ a, JsString.first fallbackImage = Some a → isWhiteSpace a = false)
    as Hf by (by intros a [= <-]).
  assert (∀ a, JsString.last fallbackImage = Some a → isWhiteSpace a = false)
    as Hl by (by intros a [= <-]).
  unfold coverImage, getImageCount, or_else.
  destruct (Category.image_url c) as [url|]; cbn [mbind option_bind];
    [|by split_and!].
  pose proof (split_nonempty "," url) as Hne.
  destruct (split "," url) as [|seg rest] eqn:Hsplit; [done|].
  cbn [head fmap option_fmap option_map truthy default].
  destruct (trim_spec seg) as (_ & _ & _ & _ & _ & Hfirst & Hlast).
  destruct (String.eqb_spec (trim seg) "") as [Hempty|Hseg]; cbn [negb].
  - by split_and!.
  - split_and!; [done..|].
    destruct (String.eqb_spec url "") as [->|Hurl]; cbn [negb].
    + simpl in Hsplit. by injection Hsplit as <- <-.
    + unfold id. by rewrite Hsplit, fmap_cons, filter_cons, decide_True.
Qed.

End Images.

(** ** A whole forest, fully expanded *)

(** X18.  For a list with distinct, non-empty ids in which the chain of
    parents of every category ends at a top-level category, and with every
    id expanded, the tab renders every listed category exactly once: the
    rendered categories are a rearrangement of the list. *)
Theorem X18_forest_fully_rendered
    (items : list JewelryItem) (cats : list Category) (expanded : gset string) :
  NoDup (Category.id <$> cats) →
  (∀ c, c ∈ cats → Category.id c ≠ "") →
  (∀ c, c ∈ cats → ∃ t, trail cats (c :: t)) →
  (∀ c, c ∈ cats → Category.id c ∈ expanded) →
  ∃ v,
    render items cats expanded (length cats) = Some v ∧
    rendered_all (view_cards v) ≡ₚ cats.
Proof.
  intros Hids Hne Hforest Hopen.
  pose proof (nonempty_ids_top_unparented _ Hne) as Htop.
  destruct (render_total cats Hids Htop items expanded (length cats))
    as [v Hv]; [done|].
  exists v. split; [done|].
  apply NoDup_Permutation.
  - by eapply render_NoDup.
  - by eapply NoDup_fmap_1.
  - intros x. split.
    + intros Hx.
      destruct (render_rendered_trail cats items expanded _ _ _ Hv Hx) as [u Hu].
      eapply trail_elem; [done|left].
    + intros Hx. destruct (Hforest x Hx) as [t Ht].
      destruct (open_trail_card items cats expanded _ v x t Hv Ht) as (k & Hk & <-).
      * apply Forall_forall. intros a Ha. apply Hopen.
        eapply trail_elem; [done|by right].
      * rewrite rendered_all_subcards. by apply list_elem_of_fmap_2.
Qed.

Lemma X18_forest_fully_rendered_witness :
  let cats := [Sample.antique; Sample.heavy; Sample.rings] in
  ∃ v,
    render Sample.items cats {["c1"; "c2"; "c3"]} (length cats) = Some v ∧
    rendered_all (view_cards v) ≡ₚ cats.
Proof.
  intros cats.
  assert (trail cats [Sample.rings]) as Hrings.
  { constructor; [right; right; left|reflexivity]. }
  assert (trail cats [Sample.heavy; Sample.rings]) as Hheavy.
  { constructor; [done|right; left|reflexivity]. }
  assert (trail cats [Sample.antique; Sample.heavy; Sample.rings]) as Hantique.
  { constructor; [done|left|reflexivity]. }
  apply (X18_forest_fully_rendered Sample.items cats {["c1"; "c2"; "c3"]}).
  - apply (bool_decide_unpack _). vm_compute. exact I.
  - apply Forall_forall. apply (bool_decide_unpack _). vm_compute. exact I.
  - intros c Hc. repeat (apply elem_of_cons in Hc as [->|Hc]); eauto.
    by apply elem_of_nil in Hc.
  - apply Forall_forall. apply (bool_decide_unpack _). vm_compute. exact I.
Defined.

(** ** The spinner of the poller *)

Section PollerIdle.
Import GoldPrice.

(** X19.  In every state the poller reaches while it is mounted, the loading
    flag is set only if a fetch is still pending: once every fetch has
    settled the flag is cleared. *)
Theorem X19_loading_means_pending (events : list Event) (h : Hook) :
  run events init = Some h →
  mounted h = true → loading h = true → 0 < pending h.
Proof.
  intros Hrun.
  apply (run_invariant
           (λ h, mounted h = true → loading h = true → 0 < pending h)
           events init h); [done| |done].
  intros e h1 h2 Hinv.
  destruct e, h1 as [? [] ? [] [] [|n]]; simpl in *;
    repeat case_match; intros; simplify_eq/=; try lia; try done;
    try (by apply Hinv).
Qed.

Lemma X19_loading_means_pending_witness :
  let h := mkHook 5450 true None true true 1 in
  run [Mount; Rejected; Tick] init = Some h ∧ 0 < pending h.
Proof.
  intros h. split; [reflexivity|].
  apply (X19_loading_means_pending [Mount; Rejected; Tick] h); reflexivity.
Defined.

End PollerIdle.

(** ** What reaches the backend *)

(** X20.  Whatever the state and the answers of the outside world, the
    handler of an event issues at most one remote write; it issues one only
    for a submission or for a delete request that was confirmed; and
    opening, closing, editing or typing into the form and toggling a card
    issue no remote call and show no dialog at all. *)
Theorem X20_remote_writes (items : list JewelryItem) (a : Action) (st : State) :
  let trace := (handler items a st).2 in
  length (filter (λ e, is_remote_write e = true) trace) ≤ 1 ∧
  (Exists (λ e, is_remote_write e = true) trace →
     (∃ write load, a = Submit write load) ∨
     (∃ c write load, a = ClickDelete c true write load)) ∧
  (match a with
   | ClickAdd | ClickEdit _ | ClickToggle _ | ClickClose | Change _ _ => trace = []
   | _ => True
   end).
Proof.
  assert (∀ l : list Effect,
            Forall (λ e, is_remote_write e = false) l →
            ¬ Exists (λ e, is_remote_write e = true) l) as Hnone.
  { intros l Hall Hex. apply Exists_exists in Hex as (e & He & Htrue).
    rewrite Forall_forall in Hall. rewrite (Hall e He) in Htrue. done. }
  destruct a as [load| |c|c confirmed write load|c| |f value|write load];
    cbn [handler].
  - destruct load as [[data|]|]; simpl; (split_and!; [lia| |done]);
      intros Hex; (apply Hnone in Hex; [done|repeat constructor]).
  - simpl. split_and!; [lia| |done]. by intros ?%Exists_nil.
  - simpl. split_and!; [lia| |done]. by intros ?%Exists_nil.
  - rewrite handleDeleteCategory_eval.
    case_bool_decide;
      [cbn [snd]; split_and!; [simpl; lia| |done];
       intros Hex; (apply Hnone in Hex; [done|repeat constructor])|].
    case_bool_decide;
      [cbn [snd]; split_and!; [simpl; lia| |done];
       intros Hex; (apply Hnone in Hex; [done|repeat constructor])|].
    destruct confirmed.
    + destruct write, load as [[data|]|]; cbn [snd];
        (split_and!; [simpl; lia| |done]); intros _; right; by eexists _, _, _.
    + cbn [snd]. split_and!; [simpl; lia| |done].
      intros Hex. (apply Hnone in Hex; [done|repeat constructor]).
  - simpl. split_and!; [lia| |done]. by intros ?%Exists_nil.
  - simpl. split_and!; [lia| |done]. by intros ?%Exists_nil.
  - simpl. split_and!; [lia| |done]. by intros ?%Exists_nil.
  - unfold handleCategorySubmit, bind, get, try_catch.
    generalize (submitData (categoryFormData st)). intros row.
    destruct (editingCategory st), write, load as [[data|]|]; simpl;
      (split_and!; [lia| |done]); intros _; left; by eexists _, _.
Qed.
